(** * dgeclust: the blocked Gibbs sampler of the negative binomial HDP model

    A shallow embedding of [nbinom_HDP.py].  NumPy arrays are lists, a
    [float64] is a primitive binary64 float, cluster and slot indicators are
    natural numbers.  A function returns [None] where the Python code raises
    ([IndexError] of an integer-array index, an unpack of an empty sequence, a
    shape that cannot be assigned).  Elementwise operations and masked
    assignments take operands of one shape, as NumPy requires; on other
    operands the list functions stop at the shorter one.  Every random draw is
    an explicit argument:
    the arrays returned by [rn.normal], [rn.choice] and [rn.rand] are given,
    and the samplers of [dgeclust.stats] receive the outcome they consume. *)

From Stdlib Require Import Floats ZArith Lia.
From stdpp Require Import base option list.

(** ** The numerical environment

    [np_exp], [np_log], [np_sum], [np_mean] and [np_var] are NumPy's own
    floating-point routines (their rounding and accumulation order are
    NumPy's); [nbinomln], [sample_eta_west], [sample_stick] and
    [sample_normal_mean_prec_jeffreys] live in [dgeclust.stats], outside this
    file.  [Omega] is the randomness one sampler call consumes. *)
Class Env (Omega : Type) := {
  np_exp : float → float;
  np_log : float → float;
  np_sum : list float → float;
  np_mean : list float → float;
  np_var : list float → float;
  nbinomln : float → float → float → float;
  sample_eta_west : float → nat → nat → Omega → float;
  sample_stick : list nat → float → Omega → list float * list float;
  sample_normal_mean_prec_jeffreys : float → float → nat → Omega → float * float
}.

(** ** NumPy array operations *)

(** [a[idx]] with an integer array [idx]: [IndexError] when out of range. *)
Definition take_idx {A} (a : list A) (idx : list nat) : option (list A) :=
  mapM (λ i, a !! i) idx.

(** [a[idx]] with a two-dimensional integer array [idx]. *)
Definition take_idx2 {A} (a : list A) (idx : list (list nat)) : option (list (list A)) :=
  mapM (take_idx a) idx.

(** [a[m] = b[m]] with a boolean mask [m] of the shape of [a] and [b]. *)
Fixpoint mask_assign {A} (a : list A) (m : list bool) (b : list A) : list A :=
  match a, m, b with
  | x :: a', t :: m', y :: b' => (if t then y else x) :: mask_assign a' m' b'
  | _, _, _ => a
  end.

(** [a[m]] with a boolean mask [m], read in row-major order. *)
Fixpoint mask_select {A} (a : list A) (m : list bool) : list A :=
  match a, m with
  | x :: a', t :: m' => if t then x :: mask_select a' m' else mask_select a' m'
  | _, _ => []
  end.

(** [m.T] of a matrix with [ncols] columns. *)
Fixpoint transpose {A} (ncols : nat) (m : list (list A)) : list (list A) :=
  match m with
  | [] => replicate ncols []
  | r :: m' => zip_with cons r (transpose ncols m')
  end.

(** The third component of the data tuple: an integer, or one count per group. *)
Inductive Repeats :=
  | Scalar (n : nat)
  | PerColumn (ns : list nat).

(** [np.repeat(row, reps)] along the last axis. *)
Definition np_repeat {A} (reps : Repeats) (row : list A) : list A :=
  match reps with
  | Scalar n => row ≫= replicate n
  | PerColumn ns => concat (zip_with replicate ns row)
  end.

(** Broadcasting of two one-dimensional operands: an operand of length one is
    stretched, otherwise the operands are combined position by position
    (NumPy raises when the two lengths differ and neither is one). *)
Definition broadcast2 {A B C} (f : A → B → C) (xs : list A) (ys : list B) : list C :=
  match xs, ys with
  | [x], _ => map (f x) ys
  | _, [y] => map (λ x, f x y) xs
  | _, _ => zip_with f xs ys
  end.

(** The length of [np.bincount(x, minlength=n)]. *)
Definition bincount_len (x : list nat) (minlength : nat) : nat :=
  max minlength (foldr (λ i n, max (S i) n) 0 x).

(** [np.bincount(x, minlength=n)]. *)
Definition bincount (x : list nat) (minlength : nat) : list nat :=
  map (λ k, length (filter (λ i, i = k) x)) (seq 0 (bincount_len x minlength)).

(** [np.bincount(x, w, minlength=n)]: bin [k] accumulates, in input order and
    starting from zero, the weights whose index is [k]. *)
Definition bincount_w (x : list nat) (w : list float) (minlength : nat) : list float :=
  map (λ k, fold_left (λ acc iv, if Nat.eqb iv.1 k then (acc + iv.2)%float else acc)
                      (zip x w) 0%float)
      (seq 0 (bincount_len x minlength)).

(** One piece per entry of [ns]; the last piece takes what remains, as
    [np.hsplit(row, np.cumsum(ns)[:-1])] does. *)
Fixpoint hsplit_row {A} (ns : list nat) (row : list A) : list (list A) :=
  match ns with
  | [] => [row]
  | n :: ns' =>
      match ns' with
      | [] => [row]
      | _ :: _ => take n row :: hsplit_row ns' (drop n row)
      end
  end.

(** [np.hsplit(m, np.cumsum(ns)[:-1])] of a matrix: the list of column blocks. *)
Definition hsplit {A} (ns : list nat) (m : list (list A)) : list (list (list A)) :=
  transpose (length (hsplit_row ns (@nil A))) (map (hsplit_row ns) m).

(** The entry [m[g][f]] of a matrix. *)
Definition cell {A} (m : list (list A)) (g f : nat) : option A :=
  m !! g ≫= (λ row, row !! f).

(** ** The likelihood kernel and the Metropolis rule *)
Section Sampler.
Context {Omega : Type} `{E : Env Omega}.

(** [_compute_loglik((counts, lib_sizes, nreplicas), log_phi, log_mu, beta)]:
    one row per feature, one entry per sample. *)
Definition _compute_loglik (counts : list (list float)) (lib_sizes : list float)
    (nreplicas : Repeats) (log_phi log_mu : list float) (beta : list (list float))
    : list (list float) :=
  zip_with (λ cp mb,
      let alpha := (1 / np_exp cp.2)%float in
      let p := broadcast2
                 (λ lib b, (alpha / (alpha + lib * np_exp (mb.1 + b)))%float)
                 lib_sizes (np_repeat nreplicas mb.2) in
      broadcast2 (λ cnt q, nbinomln cnt alpha q) cp.1 p)
    (zip counts log_phi) (zip log_mu beta).

(** [np.logical_or(loglik_ > loglik, rn.rand(...) < np.exp(loglik_ - loglik))]. *)
Definition accept (loglik loglik_ u : float) : bool :=
  (loglik <? loglik_)%float || (u <? np_exp (loglik_ - loglik))%float.

Definition metropolis (loglik loglik_ u : list float) : list bool :=
  zip_with (λ ll r, accept ll.1 ll.2 r) (zip loglik loglik_) u.


(** ** The model state *)

(** The attributes of an [NBinomModel] object. *)
Record NBinomModel := {
  ngroups : nat; nfeatures : nat; nsamples : nat; thr : float;
  iter : nat;
  mu1 : float; tau1 : float; mu2 : float; tau2 : float; m0 : float; t0 : float;
  log_phi : list float; log_mu : list float;
  eta : float; zeta : list float;
  lw : list float; lu : list (list float);
  beta : list float;
  c : list (list nat); d : list (list nat); z : list (list nat);
  occ : list nat; iact : list bool; nact : nat
}.

(** Attribute assignments. *)
Definition set_iter v_iter (self : NBinomModel) : NBinomModel :=
  {| ngroups := self.(ngroups); nfeatures := self.(nfeatures); nsamples := self.(nsamples);
     thr := self.(thr); iter := v_iter; mu1 := self.(mu1); tau1 := self.(tau1); mu2 :=
     self.(mu2); tau2 := self.(tau2); m0 := self.(m0); t0 := self.(t0); log_phi :=
     self.(log_phi); log_mu := self.(log_mu); eta := self.(eta); zeta := self.(zeta); lw :=
     self.(lw); lu := self.(lu); beta := self.(beta); c := self.(c); d := self.(d); z :=
     self.(z); occ := self.(occ); iact := self.(iact); nact := self.(nact) |}.

Definition set_log_phi v_log_phi (self : NBinomModel) : NBinomModel :=
  {| ngroups := self.(ngroups); nfeatures := self.(nfeatures); nsamples := self.(nsamples);
     thr := self.(thr); iter := self.(iter); mu1 := self.(mu1); tau1 := self.(tau1); mu2 :=
     self.(mu2); tau2 := self.(tau2); m0 := self.(m0); t0 := self.(t0); log_phi :=
     v_log_phi; log_mu := self.(log_mu); eta := self.(eta); zeta := self.(zeta); lw :=
     self.(lw); lu := self.(lu); beta := self.(beta); c := self.(c); d := self.(d); z :=
     self.(z); occ := self.(occ); iact := self.(iact); nact := self.(nact) |}.

Definition set_log_mu v_log_mu (self : NBinomModel) : NBinomModel :=
  {| ngroups := self.(ngroups); nfeatures := self.(nfeatures); nsamples := self.(nsamples);
     thr := self.(thr); iter := self.(iter); mu1 := self.(mu1); tau1 := self.(tau1); mu2 :=
     self.(mu2); tau2 := self.(tau2); m0 := self.(m0); t0 := self.(t0); log_phi :=
     self.(log_phi); log_mu := v_log_mu; eta := self.(eta); zeta := self.(zeta); lw :=
     self.(lw); lu := self.(lu); beta := self.(beta); c := self.(c); d := self.(d); z :=
     self.(z); occ := self.(occ); iact := self.(iact); nact := self.(nact) |}.

Definition set_beta v_beta (self : NBinomModel) : NBinomModel :=
  {| ngroups := self.(ngroups); nfeatures := self.(nfeatures); nsamples := self.(nsamples);
     thr := self.(thr); iter := self.(iter); mu1 := self.(mu1); tau1 := self.(tau1); mu2 :=
     self.(mu2); tau2 := self.(tau2); m0 := self.(m0); t0 := self.(t0); log_phi :=
     self.(log_phi); log_mu := self.(log_mu); eta := self.(eta); zeta := self.(zeta); lw :=
     self.(lw); lu := self.(lu); beta := v_beta; c := self.(c); d := self.(d); z :=
     self.(z); occ := self.(occ); iact := self.(iact); nact := self.(nact) |}.

Definition set_groups v_c v_d v_z v_lu v_zeta (self : NBinomModel) : NBinomModel :=
  {| ngroups := self.(ngroups); nfeatures := self.(nfeatures); nsamples := self.(nsamples);
     thr := self.(thr); iter := self.(iter); mu1 := self.(mu1); tau1 := self.(tau1); mu2 :=
     self.(mu2); tau2 := self.(tau2); m0 := self.(m0); t0 := self.(t0); log_phi :=
     self.(log_phi); log_mu := self.(log_mu); eta := self.(eta); zeta := v_zeta; lw :=
     self.(lw); lu := v_lu; beta := self.(beta); c := v_c; d := v_d; z := v_z; occ :=
     self.(occ); iact := self.(iact); nact := self.(nact) |}.

Definition set_z v_z (self : NBinomModel) : NBinomModel :=
  {| ngroups := self.(ngroups); nfeatures := self.(nfeatures); nsamples := self.(nsamples);
     thr := self.(thr); iter := self.(iter); mu1 := self.(mu1); tau1 := self.(tau1); mu2 :=
     self.(mu2); tau2 := self.(tau2); m0 := self.(m0); t0 := self.(t0); log_phi :=
     self.(log_phi); log_mu := self.(log_mu); eta := self.(eta); zeta := self.(zeta); lw :=
     self.(lw); lu := self.(lu); beta := self.(beta); c := self.(c); d := self.(d); z :=
     v_z; occ := self.(occ); iact := self.(iact); nact := self.(nact) |}.

Definition set_occupancy v_occ v_iact v_nact (self : NBinomModel) : NBinomModel :=
  {| ngroups := self.(ngroups); nfeatures := self.(nfeatures); nsamples := self.(nsamples);
     thr := self.(thr); iter := self.(iter); mu1 := self.(mu1); tau1 := self.(tau1); mu2 :=
     self.(mu2); tau2 := self.(tau2); m0 := self.(m0); t0 := self.(t0); log_phi :=
     self.(log_phi); log_mu := self.(log_mu); eta := self.(eta); zeta := self.(zeta); lw :=
     self.(lw); lu := self.(lu); beta := self.(beta); c := self.(c); d := self.(d); z :=
     self.(z); occ := v_occ; iact := v_iact; nact := v_nact |}.

Definition set_eta v_eta (self : NBinomModel) : NBinomModel :=
  {| ngroups := self.(ngroups); nfeatures := self.(nfeatures); nsamples := self.(nsamples);
     thr := self.(thr); iter := self.(iter); mu1 := self.(mu1); tau1 := self.(tau1); mu2 :=
     self.(mu2); tau2 := self.(tau2); m0 := self.(m0); t0 := self.(t0); log_phi :=
     self.(log_phi); log_mu := self.(log_mu); eta := v_eta; zeta := self.(zeta); lw :=
     self.(lw); lu := self.(lu); beta := self.(beta); c := self.(c); d := self.(d); z :=
     self.(z); occ := self.(occ); iact := self.(iact); nact := self.(nact) |}.

Definition set_lw v_lw (self : NBinomModel) : NBinomModel :=
  {| ngroups := self.(ngroups); nfeatures := self.(nfeatures); nsamples := self.(nsamples);
     thr := self.(thr); iter := self.(iter); mu1 := self.(mu1); tau1 := self.(tau1); mu2 :=
     self.(mu2); tau2 := self.(tau2); m0 := self.(m0); t0 := self.(t0); log_phi :=
     self.(log_phi); log_mu := self.(log_mu); eta := self.(eta); zeta := self.(zeta); lw :=
     v_lw; lu := self.(lu); beta := self.(beta); c := self.(c); d := self.(d); z :=
     self.(z); occ := self.(occ); iact := self.(iact); nact := self.(nact) |}.

Definition set_hpars1 v_mu1 v_tau1 (self : NBinomModel) : NBinomModel :=
  {| ngroups := self.(ngroups); nfeatures := self.(nfeatures); nsamples := self.(nsamples);
     thr := self.(thr); iter := self.(iter); mu1 := v_mu1; tau1 := v_tau1; mu2 :=
     self.(mu2); tau2 := self.(tau2); m0 := self.(m0); t0 := self.(t0); log_phi :=
     self.(log_phi); log_mu := self.(log_mu); eta := self.(eta); zeta := self.(zeta); lw :=
     self.(lw); lu := self.(lu); beta := self.(beta); c := self.(c); d := self.(d); z :=
     self.(z); occ := self.(occ); iact := self.(iact); nact := self.(nact) |}.

Definition set_hpars2 v_mu2 v_tau2 (self : NBinomModel) : NBinomModel :=
  {| ngroups := self.(ngroups); nfeatures := self.(nfeatures); nsamples := self.(nsamples);
     thr := self.(thr); iter := self.(iter); mu1 := self.(mu1); tau1 := self.(tau1); mu2 :=
     v_mu2; tau2 := v_tau2; m0 := self.(m0); t0 := self.(t0); log_phi := self.(log_phi);
     log_mu := self.(log_mu); eta := self.(eta); zeta := self.(zeta); lw := self.(lw); lu :=
     self.(lu); beta := self.(beta); c := self.(c); d := self.(d); z := self.(z); occ :=
     self.(occ); iact := self.(iact); nact := self.(nact) |}.

Definition set_hpars0 v_m0 v_t0 (self : NBinomModel) : NBinomModel :=
  {| ngroups := self.(ngroups); nfeatures := self.(nfeatures); nsamples := self.(nsamples);
     thr := self.(thr); iter := self.(iter); mu1 := self.(mu1); tau1 := self.(tau1); mu2 :=
     self.(mu2); tau2 := self.(tau2); m0 := v_m0; t0 := v_t0; log_phi := self.(log_phi);
     log_mu := self.(log_mu); eta := self.(eta); zeta := self.(zeta); lw := self.(lw); lu :=
     self.(lu); beta := self.(beta); c := self.(c); d := self.(d); z := self.(z); occ :=
     self.(occ); iact := self.(iact); nact := self.(nact) |}.

(** [self.z[np.abs(self.beta[self.z]) < self.thr] = 0]. *)
Definition snap (thr : float) (beta : list float) (z : list (list nat))
    : option (list (list nat)) :=
  bz ← take_idx2 beta z;
  Some (zip_with (zip_with (λ b k, if (abs b <? thr)%float then 0 else k)) bz z).

(** [occ = np.bincount(z[1:].ravel(), minlength=lw.size)], [iact = occ > 0],
    [nact = np.sum(iact)]. *)
Definition occupancy (z : list (list nat)) (minlength : nat) : list nat :=
  bincount (concat (drop 1 z)) minlength.

Definition active (occ : list nat) : list bool := map (λ n, Nat.ltb 0 n) occ.

Definition count_true (m : list bool) : nat := length (filter (λ t, t = true) m).

(** ** Construction *)

(** What [__init__] reads of its [data] argument: [len(data.groups)],
    [data.counts.shape] and [data.counts.values]. *)
Record RawData := {
  groups : nat;
  counts_shape : nat * nat;
  counts_values : list (list float)
}.

(** The arrays drawn by [__init__]: [rn.normal] for [log_phi], [log_mu] and the
    [lw.size - 1] effects, [rn.choice] for [c] and [d]. *)
Record InitDraws := {
  rn_log_phi : list float;
  rn_log_mu : list float;
  rn_beta : list float;
  rn_c : list (list nat);
  rn_d : list (list nat)
}.

(** The float of an integer truncation level. *)
Definition of_nat (n : nat) : float := of_uint63 (Uint63.of_Z (Z.of_nat n)).

(** [m[0, :] = 0]. *)
Definition zero_row0 (m : list (list nat)) : option (list (list nat)) :=
  match m with
  | [] => None
  | r :: m' => Some (map (λ _, 0) r :: m')
  end.

(** [m[:, 0] = 0]. *)
Definition zero_col0 (m : list (list nat)) : option (list (list nat)) :=
  mapM (λ r, match r with [] => None | _ :: r' => Some (0 :: r') end) m.

Definition __init__ (data : RawData) (ntrunc : nat * nat) (init_hpars : float * float)
    (eta0 zeta0 : option float) (thr0 : float) (rnd : InitDraws) : option NBinomModel :=
  let logc := map (λ x, np_log (x + 1)%float) (concat data.(counts_values)) in
  let dmean := np_mean logc in
  let dvar := np_var logc in
  let lw0 := replicate ntrunc.1 (- np_log (of_nat ntrunc.1))%float in
  let lu0 := replicate data.(groups) (replicate ntrunc.2 (- np_log (of_nat ntrunc.2))%float) in
  guard (0 < length lw0);;
  let beta0 := 0%float :: rn_beta rnd in
  c1 ← zero_row0 (rn_c rnd);
  d0 ← zero_row0 (rn_d rnd);
  c0 ← zero_col0 c1;
  z1 ← mapM (λ cd, take_idx cd.1 cd.2) (zip c0 d0);
  z0 ← snap thr0 beta0 z1;
  let occ0 := occupancy z0 (length lw0) in
  Some {| ngroups := data.(groups);
          nfeatures := data.(counts_shape).1; nsamples := data.(counts_shape).2;
          thr := thr0; iter := 0;
          mu1 := np_log (abs (dvar - dmean) / (dmean * dmean))%float; tau1 := 1%float;
          mu2 := dmean; tau2 := (1 / dvar)%float;
          m0 := init_hpars.1; t0 := init_hpars.2;
          log_phi := rn_log_phi rnd; log_mu := rn_log_mu rnd;
          eta := default (np_log (of_nat ntrunc.1)) eta0;
          zeta := replicate data.(groups) (default (np_log (of_nat ntrunc.2)) zeta0);
          lw := lw0; lu := lu0; beta := beta0;
          c := c0; d := d0; z := z0;
          occ := occ0; iact := active occ0; nact := count_true (active occ0) |}.

(** ** The group-level update *)

(** The tuple [_update_group_vars] is called with.  The arrays [c] and [d] are
    rows of [self.c] and [self.d]: the record is also the memory the call can
    write to. *)
Record GroupArgs := {
  g_c : list nat; g_d : list nat; g_lu : list float; g_zeta : float;
  g_counts : list (list float); g_lib_sizes : list float;
  g_log_phi : list float; g_log_mu : list float; g_beta : list float; g_lw : list float
}.

(** The draws of one call: the proposals [d_] and [c_] of [rn.choice], the
    uniforms of the two [rn.rand] calls, and the outcomes consumed by
    [st.sample_eta_west] and [st.sample_stick]. *)
Record GroupDraws := {
  rn_d_ : list nat; rn_u_d : list float;
  rn_c_ : list nat; rn_u_c : list float;
  w_zeta : Omega; w_lu : Omega
}.

(** The returned tuple [(c, d, c[d], lu, zeta)]. *)
Record GroupResult := {
  r_c : list nat; r_d : list nat; r_z : list nat; r_lu : list float; r_zeta : float
}.

(** [_compute_loglik((counts, lib_sizes, 1), log_phi, log_mu, beta[idx]).sum(-1)]
    with [beta] reshaped to one column. *)
Definition group_loglik (a : GroupArgs) (idx : list nat) : option (list float) :=
  b ← take_idx (map (λ x, [x]) a.(g_beta)) idx;
  Some (map np_sum (_compute_loglik a.(g_counts) a.(g_lib_sizes) (Scalar 1)
                      a.(g_log_phi) a.(g_log_mu) b)).

(** [_update_group_vars(args)]: the arguments as the call leaves them, and the
    returned tuple. *)
Definition _update_group_vars (a : GroupArgs) (rnd : GroupDraws)
    : option (GroupArgs * GroupResult) :=
  let d_ := rn_d_ rnd in
  cd ← take_idx a.(g_c) a.(g_d);
  loglik ← group_loglik a cd;
  cd_ ← take_idx a.(g_c) d_;
  loglik_ ← group_loglik a cd_;
  let d1 := mask_assign a.(g_d) (metropolis loglik loglik_ (rn_u_d rnd)) d_ in
  let occ := bincount d1 (length a.(g_lu)) in
  let iact := active occ in
  let kact := count_true iact in
  c_ ← match rn_c_ rnd with [] => None | _ :: t => Some (0 :: t) end;
  cd1 ← take_idx a.(g_c) d1;
  loglik1 ← group_loglik a cd1;
  c_d1 ← take_idx c_ d1;
  loglik1_ ← group_loglik a c_d1;
  let ll := bincount_w d1 loglik1 (length a.(g_lu)) in
  let ll_ := bincount_w d1 loglik1_ (length a.(g_lu)) in
  let c1 := mask_assign a.(g_c) (metropolis ll ll_ (rn_u_c rnd)) c_ in
  let c2 := mask_assign c1 (map negb iact) c_ in
  let zeta1 := sample_eta_west a.(g_zeta) kact (sum_list occ) (w_zeta rnd) in
  let lu1 := (sample_stick occ zeta1 (w_lu rnd)).1 in
  z1 ← take_idx c2 d1;
  Some ({| g_c := c2; g_d := d1; g_lu := a.(g_lu); g_zeta := a.(g_zeta);
           g_counts := a.(g_counts); g_lib_sizes := a.(g_lib_sizes);
           g_log_phi := a.(g_log_phi); g_log_mu := a.(g_log_mu);
           g_beta := a.(g_beta); g_lw := a.(g_lw) |},
        {| r_c := c2; r_d := d1; r_z := z1; r_lu := lu1; r_zeta := zeta1 |}).

(** ** One sweep *)

(** The data tuple [(counts, lib_sizes, nreplicas)] passed to [update]. *)
Record Data := {
  counts : list (list float);
  lib_sizes : list float;
  nreplicas : list nat
}.

(** The draws of one sweep: a proposal and the uniforms for [log_phi], for
    [log_mu] and for the [lw.size - 1] effects; the draws of the call for each
    group (indexed from the first non-reference group); the outcomes consumed
    by the samplers of the concentration, the weights and the three pairs of
    hyper-parameters. *)
Record SweepDraws := {
  rn_phi : list float * list float;
  rn_mu : list float * list float;
  rn_beta_ : list float * list float;
  rn_groups : nat → GroupDraws;
  w_eta : Omega; w_lw : Omega;
  w_hp1 : Omega; w_hp2 : Omega; w_hp0 : Omega
}.

(** [_compute_loglik(data, log_phi, log_mu, beta[self.z.T])]. *)
Definition model_loglik (self : NBinomModel) (data : Data) (log_phi' log_mu' : list float)
    (beta' : list float) : option (list (list float)) :=
  bz ← take_idx2 beta' (transpose self.(nfeatures) self.(z));
  Some (_compute_loglik data.(counts) data.(lib_sizes) (PerColumn data.(nreplicas))
          log_phi' log_mu' bz).

Definition _update_phi (self : NBinomModel) (data : Data) (rnd : list float * list float)
    : option NBinomModel :=
  let log_phi_ := rnd.1 in
  loglik ← model_loglik self data self.(log_phi) self.(log_mu) self.(beta);
  loglik_ ← model_loglik self data log_phi_ self.(log_mu) self.(beta);
  let idxs := metropolis (map np_sum loglik) (map np_sum loglik_) rnd.2 in
  Some (set_log_phi (mask_assign self.(log_phi) idxs log_phi_) self).

Definition _update_mu (self : NBinomModel) (data : Data) (rnd : list float * list float)
    : option NBinomModel :=
  let log_mu_ := rnd.1 in
  loglik ← model_loglik self data self.(log_phi) self.(log_mu) self.(beta);
  loglik_ ← model_loglik self data self.(log_phi) log_mu_ self.(beta);
  let idxs := metropolis (map np_sum loglik) (map np_sum loglik_) rnd.2 in
  Some (set_log_mu (mask_assign self.(log_mu) idxs log_mu_) self).

Definition _update_beta (self : NBinomModel) (data : Data) (rnd : list float * list float)
    : option NBinomModel :=
  let beta_ := 0%float :: rnd.1 in
  loglik ← model_loglik self data self.(log_phi) self.(log_mu) self.(beta);
  loglik_ ← model_loglik self data self.(log_phi) self.(log_mu) beta_;
  let zr := map (np_repeat (PerColumn data.(nreplicas)))
                (transpose self.(nfeatures) self.(z)) in
  let ll := bincount_w (concat zr) (concat loglik) (length self.(lw)) in
  let ll_ := bincount_w (concat zr) (concat loglik_) (length self.(lw)) in
  let idxs := metropolis ll ll_ rnd.2 in
  let beta1 := mask_assign self.(beta) idxs beta_ in
  Some (set_beta (mask_assign beta1 (map negb self.(iact)) beta_) self).

(** The entries of [self.beta[self.z][self.z > 0]]. *)
Definition effect_observations (self : NBinomModel) : option (list float) :=
  bz ← take_idx2 self.(beta) self.(z);
  Some (mask_select (concat bz) (map (Nat.ltb 0) (concat self.(z)))).

Definition sq (x : float) : float := (x * x)%float.

Definition _update_hpars (self : NBinomModel) (w1 w2 w0 : Omega) : option NBinomModel :=
  let p1 := sample_normal_mean_prec_jeffreys
              (np_sum self.(log_phi)) (np_sum (map sq self.(log_phi)))
              (length self.(log_phi)) w1 in
  let self := set_hpars1 p1.1 p1.2 self in
  let p2 := sample_normal_mean_prec_jeffreys
              (np_sum self.(log_mu)) (np_sum (map sq self.(log_mu)))
              (length self.(log_mu)) w2 in
  let self := set_hpars2 p2.1 p2.2 self in
  obs ← effect_observations self;
  let n := length obs in
  let p0 := if Nat.ltb 2 n
            then sample_normal_mean_prec_jeffreys (np_sum obs) (np_sum (map sq obs)) n w0
            else (self.(m0), self.(t0)) in
  Some (set_hpars0 p0.1 p0.2 self).

(** The argument tuples [zip(self.c[1:], self.d[1:], self.lu[1:], self.zeta[1:],
    counts[1:], lib_sizes[1:], common_args)]. *)
Definition group_args (self : NBinomModel) (data : Data) : list GroupArgs :=
  let cnts := hsplit data.(nreplicas) data.(counts) in
  let libs := hsplit_row data.(nreplicas) data.(lib_sizes) in
  zip_with (λ cd rest,
      {| g_c := cd.1.1; g_d := cd.1.2; g_lu := cd.2.1; g_zeta := cd.2.2;
         g_counts := rest.1; g_lib_sizes := rest.2;
         g_log_phi := self.(log_phi); g_log_mu := self.(log_mu);
         g_beta := self.(beta); g_lw := self.(lw) |})
    (zip (zip (drop 1 self.(c)) (drop 1 self.(d)))
         (zip (drop 1 self.(lu)) (drop 1 self.(zeta))))
    (zip (drop 1 cnts) (drop 1 libs)).

(** [m[1:] = rows]: the rows must number [len(m) - 1], or be a single row,
    which NumPy then copies into every row of the slice. *)
Definition assign_tail {A} (m : list A) (rows : list A) : option (list A) :=
  if decide (length rows = length m - 1) then Some (take 1 m ++ rows)
  else match rows with
       | [r] => Some (take 1 m ++ replicate (length m - 1) r)
       | _ => None
       end.

(** [update(data, pool)].  With [pool is None] the calls run in order on the
    rows of [self.c] and [self.d] themselves; a process pool runs them on
    copies.  In both cases the returned rows are then stored in the slices. *)
Definition update (self : NBinomModel) (data : Data) (rnd : SweepDraws)
    : option NBinomModel :=
  let self := set_iter (S self.(iter)) self in
  self ← _update_phi self data (rn_phi rnd);
  self ← _update_mu self data (rn_mu rnd);
  self ← _update_beta self data (rn_beta_ rnd);
  res ← mapM (λ ia, _update_group_vars ia.2 (rn_groups rnd ia.1))
             (imap pair (group_args self data));
  guard (res ≠ []);;
  c1 ← assign_tail self.(c) (map (λ r, r_c r.2) res);
  d1 ← assign_tail self.(d) (map (λ r, r_d r.2) res);
  z1 ← assign_tail self.(z) (map (λ r, r_z r.2) res);
  lu1 ← assign_tail self.(lu) (map (λ r, r_lu r.2) res);
  zeta1 ← assign_tail self.(zeta) (map (λ r, r_zeta r.2) res);
  let self := set_groups c1 d1 z1 lu1 zeta1 self in
  z2 ← snap self.(thr) self.(beta) self.(z);
  let self := set_z z2 self in
  let occ1 := occupancy self.(z) (length self.(lw)) in
  guard (length occ1 = length self.(occ));;
  let self := set_occupancy occ1 (active occ1) (count_true (active occ1)) self in
  let self := set_eta (sample_eta_west self.(eta) self.(nact) (sum_list self.(occ))
                         (w_eta rnd)) self in
  let self := set_lw (sample_stick self.(occ) self.(eta) (w_lw rnd)).1 self in
  _update_hpars self (w_hp1 rnd) (w_hp2 rnd) (w_hp0 rnd).

(** ** Reachable states *)

(** A model state is reachable when [__init__] built it or [update] produced
    it from a reachable state. *)
Inductive reachable : NBinomModel → Prop :=
  | reach_init data ntrunc init_hpars eta0 zeta0 thr0 rnd self :
      __init__ data ntrunc init_hpars eta0 zeta0 thr0 rnd = Some self →
      reachable self
  | reach_update self data rnd self' :
      reachable self →
      update self data rnd = Some self' →
      reachable self'.

End Sampler.

(** ** A concrete environment and a small model

    Stand-ins that make the definitions run: polynomial approximations of
    [exp] and [log], sums accumulated from the left, a quadratic score for
    [nbinomln], and samplers that return the outcome they are given. *)
Module Example.

Definition exp_poly (x : float) : float :=
  (1 + x * (1 + x / 2 * (1 + x / 3 * (1 + x / 4))))%float.

Definition log_poly (x : float) : float :=
  let y := ((x - 1) / (x + 1))%float in
  (2 * y * (1 + y * y / 3))%float.

Definition sum_left (l : list float) : float :=
  fold_left (λ acc x, (acc + x)%float) l 0%float.

Definition mean_left (l : list float) : float :=
  (sum_left l / of_nat (length l))%float.

Definition var_left (l : list float) : float :=
  mean_left (map (λ x, sq (x - mean_left l)%float) l).

Definition score (cnt alpha p : float) : float :=
  (- sq (cnt * p - alpha))%float.

#[global] Instance env : Env float := {|
  np_exp := exp_poly; np_log := log_poly;
  np_sum := sum_left; np_mean := mean_left; np_var := var_left;
  nbinomln := score;
  sample_eta_west := λ _ _ _ w, w;
  sample_stick := λ occ _ w, (replicate (length occ) w, []);
  sample_normal_mean_prec_jeffreys := λ s1 _ n w, ((s1 / of_nat n)%float, w)
|}.

(** The same environment with a kernel that returns NaN everywhere. *)
Definition env_nan : Env float := {|
  np_exp := exp_poly; np_log := log_poly;
  np_sum := sum_left; np_mean := mean_left; np_var := var_left;
  nbinomln := λ _ _ _, nan;
  sample_eta_west := λ _ _ _ w, w;
  sample_stick := λ occ _ w, (replicate (length occ) w, []);
  sample_normal_mean_prec_jeffreys := λ s1 _ n w, ((s1 / of_nat n)%float, w)
|}.

(** Two groups of one replicate, two features, three outer clusters, two
    inner slots. *)
Definition raw : RawData :=
  {| groups := 2; counts_shape := (2, 2);
     counts_values := [[1; 2]; [3; 4]]%float |}.

Definition data : Data :=
  {| counts := [[1; 2]; [3; 4]]%float; lib_sizes := [1; 1]%float; nreplicas := [1; 1] |}.

Definition thr03 : float := 0x1.3333333333333p-2%float.

Definition init_draws : InitDraws :=
  {| rn_log_phi := [0; 0]%float; rn_log_mu := [1; 1]%float;
     rn_beta := [1; 0.5]%float;
     rn_c := [[1; 2]; [2; 1]]; rn_d := [[1; 0]; [1; 1]] |}.

Definition group_draws : @GroupDraws float :=
  {| rn_d_ := [0; 1]; rn_u_d := [0.5; 0.5]%float;
     rn_c_ := [1; 2]; rn_u_c := [0.5; 0.5]%float;
     w_zeta := 1%float; w_lu := (-1)%float |}.

Definition sweep_draws : @SweepDraws float :=
  {| rn_phi := ([0.5; 0.25]%float, [0.5; 0.5]%float);
     rn_mu := ([0.5; 1.5]%float, [0.5; 0.5]%float);
     rn_beta_ := ([2; (-1)]%float, [0.5; 0.5; 0.5]%float);
     rn_groups := λ _, group_draws;
     w_eta := 1%float; w_lw := (-1)%float;
     w_hp1 := 1%float; w_hp2 := 1%float; w_hp0 := 1%float |}.

Definition model0 : option NBinomModel :=
  __init__ raw (3, 2) (0, 1)%float None None thr03 init_draws.

Definition empty_model : NBinomModel :=
  {| ngroups := 0; nfeatures := 0; nsamples := 0; thr := 0; iter := 0;
     mu1 := 0; tau1 := 0; mu2 := 0; tau2 := 0; m0 := 0; t0 := 0;
     log_phi := []; log_mu := []; eta := 0; zeta := []; lw := []; lu := [];
     beta := []; c := []; d := []; z := []; occ := []; iact := []; nact := 0 |}.

(** The constructed model, and the model after one sweep. *)
Definition state0 : NBinomModel := Eval vm_compute in default empty_model model0.

Definition state1 : NBinomModel :=
  Eval vm_compute in default empty_model (update state0 data sweep_draws).


(** The model after [_update_phi], after [_update_mu] and after [_update_beta]
    alone. *)
Definition state_phi : NBinomModel :=
  Eval vm_compute in default empty_model (_update_phi state0 data (rn_phi sweep_draws)).


Definition state_beta : NBinomModel :=
  Eval vm_compute in default empty_model (_update_beta state0 data (rn_beta_ sweep_draws)).

(** A call of the group update in which inner slot 1 holds no feature. *)
Definition call_args : GroupArgs :=
  {| g_c := [0; 1]; g_d := [0; 0]; g_lu := [(-1); (-1)]%float; g_zeta := 1%float;
     g_counts := [[2]; [4]]%float; g_lib_sizes := [1]%float;
     g_log_phi := [0; 0]%float; g_log_mu := [1; 1]%float;
     g_beta := [0; 1; 0.5]%float; g_lw := [(-1); (-1); (-1)]%float |}.

Definition call_draws : @GroupDraws float :=
  {| rn_d_ := [0; 0]; rn_u_d := [0.5; 0.5]%float;
     rn_c_ := [1; 2]; rn_u_c := [0.5; 0.5]%float;
     w_zeta := 1%float; w_lu := (-1)%float |}.

End Example.

(** ** Properties of model states *)

(** Row 0 of a matrix exists and is zero everywhere. *)
Definition row_null (m : list (list nat)) : Prop :=
  ∃ r, m !! 0 = Some r ∧ Forall (λ k, k = 0) r.

(** [k] is the cluster [j] after the threshold snap, as the code tests it. *)
Definition snapped (thr0 : float) (beta0 : list float) (j k : nat) : Prop :=
  ∃ b, beta0 !! j = Some b ∧ k = if (abs b <? thr0)%float then 0 else j.

(** Feature [f] of group [g] resolves to the outer cluster [j = c[g][d[g][f]]]. *)
Definition resolves (self : NBinomModel) (g f j : nat) : Prop :=
  ∃ i, cell self.(d) g f = Some i ∧ cell self.(c) g i = Some j.

(** Every entry of [z] is the snapped composition of [d] and [c]. *)
Definition consistent (self : NBinomModel) : Prop :=
  ∀ g f k, cell self.(z) g f = Some k →
    ∃ j, resolves self g f j ∧ snapped self.(thr) self.(beta) j k.

(** The invariant of reachable states. *)
Definition Inv (self : NBinomModel) : Prop :=
  consistent self ∧
  row_null self.(c) ∧ row_null self.(d) ∧ row_null self.(z) ∧
  self.(beta) !! 0 = Some 0%float ∧
  length self.(z) ≤ length self.(c) ∧ length self.(z) ≤ length self.(d).

(** A float that is a number. *)
Definition no_nan (x : float) : Prop := is_nan x = false.

(** The row of [rows] that [m[1:] = rows] stores in row [g >= 1]. *)
Definition tail_src {A} (rows : list A) (g : nat) : nat :=
  if decide (length rows = 1) then 0 else g - 1.


(** All entries of [l] are below [n]. *)
Definition all_lt (n : nat) (l : list nat) : bool := forallb (λ k, Nat.ltb k n) l.

(** The shapes and index ranges a sweep relies on, as [__init__] sets them up
    and [rn.choice] guarantees them: one row of [c], [d], [z], [lu] and one
    entry of [zeta] and [nreplicas] per group, at least two groups; [lw],
    [occ] and the effect proposal as long as [beta]; cluster ids below the
    number of outer clusters, slot ids below the number of inner slots; for
    each non-reference group a proposal [c_] of one in-range pointer per slot
    and in-range slot proposals [d_]. *)
Definition sweep_ready {Omega} (self : NBinomModel) (data : Data)
    (rnd : @SweepDraws Omega) : bool :=
  let K := length self.(beta) in
  let n := length self.(c) in
  Nat.ltb 0 K && Nat.eqb (length self.(lw)) K && Nat.eqb (length self.(occ)) K
  && Nat.eqb (S (length (rn_beta_ rnd).1)) K
  && Nat.leb 2 n && Nat.eqb (length self.(d)) n && Nat.eqb (length self.(z)) n
  && Nat.eqb (length self.(lu)) n && Nat.eqb (length self.(zeta)) n
  && Nat.eqb (length data.(nreplicas)) n
  && forallb (all_lt K) self.(z) && forallb (all_lt K) self.(c)
  && forallb (λ cd, all_lt (length cd.1) cd.2) (zip self.(c) self.(d))
  && forallb (λ ic,
        let gd := rn_groups rnd ic.1 in
        Nat.eqb (length (rn_c_ gd)) (length ic.2) && Nat.ltb 0 (length ic.2)
        && all_lt K (rn_c_ gd) && all_lt (length ic.2) (rn_d_ gd))
       (imap pair (drop 1 self.(c))).

(** ** Further properties of model states *)

(** The state after a given number of sweeps from construction. *)
Inductive reached_after {Omega : Type} `{E : Env Omega} : nat → NBinomModel → Prop :=
  | after_init data ntrunc init_hpars eta0 zeta0 thr0 rnd self :
      __init__ data ntrunc init_hpars eta0 zeta0 thr0 rnd = Some self →
      reached_after 0 self
  | after_update n self data rnd self' :
      reached_after n self →
      update self data rnd = Some self' →
      reached_after (S n) self'.

(** The shapes and index ranges of a model state: at least one outer cluster,
    [lw] and [occ] as long as [beta]; at least two groups, one row of [d],
    [z], [lu] and one entry of [zeta] per row of [c]; cluster ids in [z] and
    [c] below the number of outer clusters; at least one inner slot per
    group, and slot ids in [d] below the number of inner slots. *)
Definition well_shaped (self : NBinomModel) : bool :=
  let K := length self.(beta) in
  let n := length self.(c) in
  Nat.ltb 0 K && Nat.eqb (length self.(lw)) K && Nat.eqb (length self.(occ)) K
  && Nat.leb 2 n && Nat.eqb (length self.(d)) n && Nat.eqb (length self.(z)) n
  && Nat.eqb (length self.(lu)) n && Nat.eqb (length self.(zeta)) n
  && forallb (all_lt K) self.(z) && forallb (all_lt K) self.(c)
  && forallb (λ cd, all_lt (length cd.1) cd.2) (zip self.(c) self.(d))
  && forallb (λ r, Nat.ltb 0 (length r)) self.(c).

(** The shapes and ranges of the data and of the draws of one sweep: one
    replicate count per group, one proposed effect per outer cluster but the
    first, and for each non-reference group one in-range pointer proposal per
    inner slot and in-range slot proposals, as [rn.choice] returns them. *)
Definition draws_ready {Omega} (self : NBinomModel) (data : Data)
    (rnd : @SweepDraws Omega) : bool :=
  let K := length self.(beta) in
  Nat.eqb (S (length (rn_beta_ rnd).1)) K
  && Nat.eqb (length data.(nreplicas)) (length self.(c))
  && forallb (λ ic,
        let gd := rn_groups rnd ic.1 in
        Nat.eqb (length (rn_c_ gd)) (length ic.2)
        && all_lt K (rn_c_ gd) && all_lt (length ic.2) (rn_d_ gd))
       (imap pair (drop 1 self.(c))).

(** The shapes and ranges of the arguments and draws of [__init__]: positive
    truncation levels [(K, L)], at least two groups, [K - 1] effects, a
    [groups x L] array of pointers below [K] and one row of slot ids below [L]
    per group. *)
Definition init_ready (data : RawData) (ntrunc : nat * nat) (rnd : InitDraws) : bool :=
  Nat.ltb 0 ntrunc.1 && Nat.ltb 0 ntrunc.2 && Nat.leb 2 data.(groups)
  && Nat.eqb (S (length (rn_beta rnd))) ntrunc.1
  && Nat.eqb (length (rn_c rnd)) data.(groups)
  && Nat.eqb (length (rn_d rnd)) data.(groups)
  && forallb (λ r, Nat.eqb (length r) ntrunc.2 && all_lt ntrunc.1 r) (rn_c rnd)
  && forallb (all_lt ntrunc.2) (rn_d rnd).

(** The group of sample [j] when group [g] has [ns[g]] replicates. *)
Fixpoint group_of_sample (ns : list nat) (j : nat) : option nat :=
  match ns with
  | [] => None
  | n :: ns' => if Nat.ltb j n then Some 0 else S <$> group_of_sample ns' (j - n)
  end.

(** Further example data: the likelihood matrix of the constructed model, and
    a matrix of combined clusters with its effects. *)
Module Cases.

Definition loglik0 : list (list float) :=
  Eval vm_compute in
    default [] (model_loglik Example.state0 Example.data Example.state0.(log_phi)
                  Example.state0.(log_mu) Example.state0.(beta)).

Definition effects : list float := [0; 1; 0.125]%float.

Definition clusters : list (list nat) := [[0; 1]; [2; 1]].

End Cases.

(** ** Proof tactics *)

(** Splits the first binding of an equation [x ≫= k = Some y]. *)
Ltac bind_inv H :=
  match type of H with
  | (guard ?P;; _) = Some _ =>
      let HP := fresh "HP" in
      rewrite option_guard_decide in H;
      destruct (decide P) as [HP|HP]; [|discriminate H]
  | mbind _ _ = Some _ =>
      let a := fresh "a" in
      let Hx := fresh "Hx" in
      apply bind_Some in H as (a & Hx & H); cbv beta zeta in H
  end.

(** Reads the attributes of a state given by attribute assignments. *)
Tactic Notation "fields" :=
  cbn [ngroups nfeatures nsamples thr iter mu1 tau1 mu2 tau2 m0 t0 log_phi log_mu
       eta zeta lw lu beta c d z occ iact nact
       set_iter set_log_phi set_log_mu set_beta set_groups set_z set_occupancy
       set_eta set_lw set_hpars1 set_hpars2 set_hpars0].
Tactic Notation "fields" "in" hyp(H) :=
  cbn [ngroups nfeatures nsamples thr iter mu1 tau1 mu2 tau2 m0 t0 log_phi log_mu
       eta zeta lw lu beta c d z occ iact nact
       set_iter set_log_phi set_log_mu set_beta set_groups set_z set_occupancy
       set_eta set_lw set_hpars1 set_hpars2 set_hpars0] in H.

(** ** Float comparison lemmas *)

Lemma SFcompare_swap x y :
  SFcompare y x = match SFcompare x y with
                  | Some o => Some (CompOpp o)
                  | None => None
                  end.
Proof.
  destruct x as [[]|[]| |[] mx ex], y as [[]|[]| |[] my ey]; simpl; try reflexivity.
  all: rewrite (Z.compare_antisym ey ex); destruct (ey ?= ex)%Z; simpl; try reflexivity.
  all: first [ rewrite CompOpp_involutive, (Pos.compare_cont_antisym my mx Eq)
             | rewrite (Pos.compare_cont_antisym mx my Eq) ]; reflexivity.
Qed.

Lemma ltb_negb_leb x y :
  no_nan x → no_nan y → (x <? y)%float = negb (y <=? x)%float.
Proof.
  unfold no_nan, is_nan.
  rewrite !FloatAxioms.eqb_spec, FloatAxioms.ltb_spec, FloatAxioms.leb_spec.
  unfold SFeqb, SFltb, SFleb. rewrite (SFcompare_swap (Prim2SF x) (Prim2SF y)).
  destruct (SFcompare (Prim2SF x) (Prim2SF y)) as [[]|] eqn:Hc; simpl; try reflexivity.
  destruct (Prim2SF x) as [[]|[]| |[] mx ex], (Prim2SF y) as [[]|[]| |[] my ey];
    simpl in *; try reflexivity; discriminate.
Qed.

Lemma abs_no_nan x : no_nan x → no_nan (abs x).
Proof.
  unfold no_nan, is_nan. rewrite !FloatAxioms.eqb_spec, FloatAxioms.abs_spec.
  unfold SFeqb. destruct (Prim2SF x) as [[]|[]| |[] mx ex]; simpl; try done.
  all: intros _; by rewrite Z.compare_refl, Pos.compare_cont_refl.
Qed.

(** ** Array lemmas *)

Lemma take_idx_Forall2 {A} (a : list A) idx r :
  take_idx a idx = Some r → Forall2 (λ i y, a !! i = Some y) idx r.
Proof. unfold take_idx. apply mapM_Some_1. Qed.

Lemma take_idx_lookup {A} (a : list A) (idx : list nat) (r : list A) (f : nat) y :
  take_idx a idx = Some r → r !! f = Some y →
  ∃ i, idx !! f = Some i ∧ a !! i = Some y.
Proof.
  intros H Hf. apply take_idx_Forall2 in H.
  destruct (Forall2_lookup_r _ _ _ _ _ H Hf) as (i & Hi & Ha). eauto.
Qed.

Lemma take_idx_length {A} (a : list A) idx r :
  take_idx a idx = Some r → length r = length idx.
Proof. intros H. apply take_idx_Forall2, Forall2_length in H. done. Qed.

Lemma take_idx_is_Some {A} (a : list A) idx :
  Forall (λ i : nat, i < length a) idx → is_Some (take_idx a idx).
Proof.
  intros H. apply mapM_is_Some_2. eapply Forall_impl; [exact H|].
  intros i Hi. simpl. by apply lookup_lt_is_Some_2.
Qed.

Lemma mask_assign_length {A} (a : list A) m b :
  length (mask_assign a m b) = length a.
Proof.
  revert m b. induction a as [|x a IH]; intros [|t m] [|y b]; simpl; auto.
Qed.

Lemma mask_assign_lookup {A} (a : list A) (m : list bool) (b : list A) (k : nat)
    (x : A) (t : bool) (y : A) :
  a !! k = Some x → m !! k = Some t → b !! k = Some y →
  mask_assign a m b !! k = Some (if t then y else x).
Proof.
  revert m b k. induction a as [|x0 a IH]; intros [|t0 m] [|y0 b] [|k]; simpl;
    try discriminate; intros; simplify_eq; eauto.
Qed.

Lemma mask_assign_head {A} (a : list A) (m : list bool) (b : list A) x :
  a !! 0 = Some x → b !! 0 = Some x → mask_assign a m b !! 0 = Some x.
Proof.
  destruct a as [|x0 a], m as [|t m], b as [|y0 b]; simpl; try done.
  intros; simplify_eq. by destruct t.
Qed.

Lemma bincount_lookup (x : list nat) (n k m : nat) :
  bincount x n !! k = Some m → m = length (filter (λ i, i = k) x).
Proof.
  unfold bincount. rewrite list_lookup_fmap. intros H.
  destruct (seq 0 (bincount_len x n) !! k) as [k'|] eqn:Hk; simplify_eq/=.
  apply lookup_seq in Hk as [-> _]. done.
Qed.

Lemma bincount_length x n : length (bincount x n) = bincount_len x n.
Proof. unfold bincount. by rewrite length_map, length_seq. Qed.

Lemma assign_tail_length {A} (m rows m' : list A) :
  assign_tail m rows = Some m' → length m' = length m.
Proof.
  unfold assign_tail. intros H. destruct (decide _) as [Hl|Hl]; simplify_eq.
  - rewrite length_app, length_take. destruct m; simpl in *; lia.
  - destruct rows as [|r [|??]]; simplify_eq.
    rewrite length_app, length_take, length_replicate. destruct m; simpl; lia.
Qed.

Lemma assign_tail_head {A} (m rows m' : list A) x :
  assign_tail m rows = Some m' → m !! 0 = Some x → m' !! 0 = Some x.
Proof.
  unfold assign_tail. intros H Hx. destruct m as [|x0 m]; simplify_eq/=.
  destruct (decide _); simplify_eq/=; [done|].
  destruct rows as [|r [|??]]; by simplify_eq/=.
Qed.

Lemma assign_tail_lookup {A} (m rows m' : list A) (g : nat) :
  assign_tail m rows = Some m' → 1 ≤ g < length m →
  m' !! g = rows !! tail_src rows g.
Proof.
  unfold assign_tail, tail_src. intros H Hg.
  destruct m as [|x0 m]; [simpl in Hg; lia|].
  destruct g as [|g]; [lia|]. simpl in Hg.
  destruct (decide (length rows = length (x0 :: m) - 1)) as [Hl|Hl]; simplify_eq.
  - simpl in *.
    destruct (decide _) as [H1|H1]; [|by rewrite Nat.sub_0_r].
    assert (g = 0) as -> by lia. done.
  - destruct rows as [|r [|??]]; simplify_eq.
    simpl. rewrite ?take_0. simpl. apply lookup_replicate_2. lia.
Qed.

(** ** What each method changes *)
Section Theory.
Context {Omega : Type} `{E : Env Omega}.

Lemma snap_Forall2 thr0 beta0 (z0 z' : list (list nat)) :
  snap thr0 beta0 z0 = Some z' → Forall2 (Forall2 (snapped thr0 beta0)) z0 z'.
Proof.
  unfold snap. intros H. bind_inv H. simplify_eq.
  apply mapM_Some_1 in Hx. induction Hx as [|zr br z0 bz Hr _ IH]; simpl; constructor; [|done].
  apply take_idx_Forall2 in Hr. clear IH.
  induction Hr as [|k b zr br Hk _ IH]; simpl; constructor; [|done].
  exists b. done.
Qed.

Lemma snap_length thr0 beta0 (z0 z' : list (list nat)) :
  snap thr0 beta0 z0 = Some z' → length z' = length z0.
Proof. intros H. apply snap_Forall2, Forall2_length in H. done. Qed.

Lemma snap_cell thr0 beta0 (z0 z' : list (list nat)) g f k :
  snap thr0 beta0 z0 = Some z' → cell z' g f = Some k →
  ∃ j, cell z0 g f = Some j ∧ snapped thr0 beta0 j k.
Proof.
  intros H Hc. apply snap_Forall2 in H. unfold cell in *.
  destruct (z' !! g) as [r'|] eqn:Hg; simplify_eq/=.
  destruct (Forall2_lookup_r _ _ _ _ _ H Hg) as (r & Hr & Hrr). rewrite Hr. simpl.
  destruct (Forall2_lookup_r _ _ _ _ _ Hrr Hc) as (j & Hj & Hs). eauto.
Qed.

Lemma snap_row_null thr0 beta0 (z0 z' : list (list nat)) :
  snap thr0 beta0 z0 = Some z' → row_null z0 → row_null z'.
Proof.
  intros H (r & Hr & Hz). apply snap_Forall2 in H.
  destruct (Forall2_lookup_l _ _ _ _ _ H Hr) as (r' & Hr' & Hrr).
  exists r'. split; [done|]. clear Hr Hr' H.
  induction Hrr as [|j k r r' (b & _ & Hk) _ IH]; [constructor|].
  apply Forall_cons in Hz as [-> Hz]. constructor; [|auto].
  by destruct (abs b <? thr0)%float.
Qed.

Lemma _update_phi_frame self data rnd self' :
  _update_phi self data rnd = Some self' → ∃ v, self' = set_log_phi v self.
Proof. unfold _update_phi. intros H. do 2 bind_inv H. simplify_eq. eauto. Qed.

Lemma _update_mu_frame self data rnd self' :
  _update_mu self data rnd = Some self' → ∃ v, self' = set_log_mu v self.
Proof. unfold _update_mu. intros H. do 2 bind_inv H. simplify_eq. eauto. Qed.

Lemma _update_beta_frame self data rnd self' :
  _update_beta self data rnd = Some self' →
  ∃ idxs, self' = set_beta (mask_assign (mask_assign self.(beta) idxs (0%float :: rnd.1))
                              (map negb self.(iact)) (0%float :: rnd.1)) self.
Proof. unfold _update_beta. intros H. do 2 bind_inv H. simplify_eq. eauto. Qed.

Lemma _update_hpars_frame self w1 w2 w0 self' :
  _update_hpars self w1 w2 w0 = Some self' →
  ∃ a1 b1 a2 b2 a0 b0, self' = set_hpars0 a0 b0 (set_hpars2 a2 b2 (set_hpars1 a1 b1 self)).
Proof. unfold _update_hpars. intros H. bind_inv H. simplify_eq. eauto 10. Qed.

Lemma _update_group_vars_result a rnd a' r :
  _update_group_vars a rnd = Some (a', r) →
  take_idx (r_c r) (r_d r) = Some (r_z r) ∧ g_c a' = r_c r ∧ g_d a' = r_d r.
Proof.
  unfold _update_group_vars. intros H. do 9 bind_inv H.
  bind_inv H. simplify_eq. simpl. done.
Qed.

(** The stages of a sweep that completes. *)
Lemma update_steps self data rnd self' :
  update self data rnd = Some self' →
  ∃ v1 v2 idxs res c1 d1 z1 lu1 zeta1 z2 eta1 lw1,
    let s3 := set_beta (mask_assign (mask_assign self.(beta) idxs (0%float :: (rn_beta_ rnd).1))
                          (map negb self.(iact)) (0%float :: (rn_beta_ rnd).1))
                (set_log_mu v2 (set_log_phi v1 (set_iter (S self.(iter)) self))) in
    let occ1 := occupancy z2 (length self.(lw)) in
    let s9 := set_lw lw1 (set_eta eta1
                (set_occupancy occ1 (active occ1) (count_true (active occ1))
                   (set_z z2 (set_groups c1 d1 z1 lu1 zeta1 s3)))) in
    _update_beta (set_log_mu v2 (set_log_phi v1 (set_iter (S self.(iter)) self)))
                 data (rn_beta_ rnd) = Some s3 ∧
    mapM (λ ia, _update_group_vars ia.2 (rn_groups rnd ia.1))
         (imap pair (group_args s3 data)) = Some res ∧
    res ≠ [] ∧
    assign_tail self.(c) (map (λ r, r_c r.2) res) = Some c1 ∧
    assign_tail self.(d) (map (λ r, r_d r.2) res) = Some d1 ∧
    assign_tail self.(z) (map (λ r, r_z r.2) res) = Some z1 ∧
    snap self.(thr) s3.(beta) z1 = Some z2 ∧
    length occ1 = length self.(occ) ∧
    _update_hpars s9 (w_hp1 rnd) (w_hp2 rnd) (w_hp0 rnd) = Some self'.
Proof.
  unfold update. intros H. cbv beta zeta in H.
  bind_inv H. apply _update_phi_frame in Hx as [v1 ->].
  bind_inv H. apply _update_mu_frame in Hx as [v2 ->].
  bind_inv H. pose proof Hx as Hb. apply _update_beta_frame in Hx as [idxs ->].
  do 2 bind_inv H. do 5 bind_inv H.
  bind_inv H. bind_inv H.
  eexists v1, v2, idxs, _, _, _, _, _, _, _, _, _. cbv zeta.
  split_and!; try eassumption; try done.
Qed.

(** ** The invariant *)

Lemma zero_row0_null m m' : zero_row0 m = Some m' → row_null m'.
Proof.
  destruct m as [|r m]; intros H; simplify_eq/=.
  exists (map (λ _, 0) r). split; [done|]. apply Forall_fmap, Forall_true. done.
Qed.

Lemma zero_col0_null m m' : zero_col0 m = Some m' → row_null m → row_null m'.
Proof.
  unfold zero_col0. intros H (r & Hr & Hz). apply mapM_Some_1 in H.
  destruct (Forall2_lookup_l _ _ _ _ _ H Hr) as (r' & Hr' & Hrr).
  exists r'. split; [done|]. destruct r as [|k r]; simplify_eq.
  apply Forall_cons in Hz as [_ Hz]. by constructor.
Qed.

(** The rows of [[c[d] for c, d in zip(self.c, self.d)]]. *)
Lemma compose_cell (c0 d0 z1 : list (list nat)) g f j :
  mapM (λ cd, take_idx cd.1 cd.2) (zip c0 d0) = Some z1 →
  cell z1 g f = Some j →
  ∃ i, cell d0 g f = Some i ∧ cell c0 g i = Some j.
Proof.
  intros H Hc. apply mapM_Some_1 in H. unfold cell in *.
  destruct (z1 !! g) as [zr|] eqn:Hg; simplify_eq/=.
  destruct (Forall2_lookup_r _ _ _ _ _ H Hg) as ([cr dr] & Hcd & Ht).
  apply lookup_zip_with_Some in Hcd as (cr' & dr' & ? & Hcr & Hdr); simplify_eq/=.
  destruct (take_idx_lookup _ _ _ _ _ Ht Hc) as (i & Hi & Hj).
  exists i. rewrite Hcr, Hdr. simpl. done.
Qed.

Lemma compose_length (c0 d0 z1 : list (list nat)) :
  mapM (λ cd, take_idx cd.1 cd.2) (zip c0 d0) = Some z1 →
  length z1 ≤ length c0 ∧ length z1 ≤ length d0.
Proof.
  intros H. apply mapM_Some_1, Forall2_length in H.
  rewrite length_zip_with in H. lia.
Qed.

Lemma compose_row_null (c0 d0 z1 : list (list nat)) :
  mapM (λ cd, take_idx cd.1 cd.2) (zip c0 d0) = Some z1 →
  row_null c0 → row_null d0 → row_null z1.
Proof.
  intros H (cr & Hcr & Hz) (dr & Hdr & _). apply mapM_Some_1 in H.
  assert (zip c0 d0 !! 0 = Some (cr, dr)) as Hcd.
  { apply lookup_zip_with_Some. eauto. }
  destruct (Forall2_lookup_l _ _ _ _ _ H Hcd) as (zr & Hzr & Ht).
  exists zr. split; [done|]. simpl in Ht. apply take_idx_Forall2 in Ht.
  apply Forall_lookup. intros f j Hf.
  destruct (Forall2_lookup_r _ _ _ _ _ Ht Hf) as (i & _ & Hj).
  by apply (Forall_lookup_1 _ _ _ _ Hz Hj).
Qed.

Lemma snapped_null thr0 beta0 k : snapped thr0 beta0 0 k → k = 0.
Proof. intros (b & _ & ->). by destruct (abs b <? thr0)%float. Qed.

Lemma init_Inv data ntrunc init_hpars eta0 zeta0 thr0 rnd self :
  __init__ data ntrunc init_hpars eta0 zeta0 thr0 rnd = Some self → Inv self.
Proof.
  unfold __init__. intros H. cbv beta zeta in H.
  bind_inv H. do 5 bind_inv H. simplify_eq.
  rename a into c1, a0 into d0, a1 into c0, a2 into z1, a3 into z0.
  pose proof (zero_col0_null _ _ Hx1 (zero_row0_null _ _ Hx)) as Hc.
  pose proof (zero_row0_null _ _ Hx0) as Hd.
  pose proof (compose_row_null _ _ _ Hx2 Hc Hd) as Hz.
  destruct (compose_length _ _ _ Hx2) as [Hl1 Hl2].
  unfold Inv; simpl. split_and!; try done.
  - intros g f k Hk. simpl in Hk.
    destruct (snap_cell _ _ _ _ _ _ _ Hx3 Hk) as (j & Hj & Hs).
    exists j. split; [|done]. unfold resolves; simpl. by eapply compose_cell.
  - by eapply snap_row_null.
  - by rewrite (snap_length _ _ _ _ Hx3).
  - by rewrite (snap_length _ _ _ _ Hx3).
Qed.

Lemma tail_src_fmap {A B} (h : A → B) (rows : list A) g :
  tail_src (h <$> rows) g = tail_src rows g.
Proof. unfold tail_src. by rewrite length_fmap. Qed.

(** Row [g >= 1] of the three indicator arrays after the group updates comes
    from one and the same returned tuple. *)
Lemma group_rows (res : list (GroupArgs * GroupResult)) (args : list (nat * GroupArgs))
    (draws : nat → GroupDraws) (c0 d0 z0 c1 d1 z1 : list (list nat)) g zr :
  mapM (λ ia, _update_group_vars ia.2 (draws ia.1)) args = Some res →
  assign_tail c0 (map (λ r, r_c r.2) res) = Some c1 →
  assign_tail d0 (map (λ r, r_d r.2) res) = Some d1 →
  assign_tail z0 (map (λ r, r_z r.2) res) = Some z1 →
  length z0 ≤ length c0 → length z0 ≤ length d0 →
  1 ≤ g → z1 !! g = Some zr →
  ∃ cr dr, c1 !! g = Some cr ∧ d1 !! g = Some dr ∧ take_idx cr dr = Some zr.
Proof.
  intros Hres Hc Hd Hz Hlc Hld Hg Hzr.
  assert (g < length z0) as Hgz.
  { rewrite <- (assign_tail_length _ _ _ Hz). by eapply lookup_lt_Some. }
  rewrite (assign_tail_lookup _ _ _ g Hz) in Hzr by lia.
  rewrite tail_src_fmap, list_lookup_fmap in Hzr.
  destruct (res !! tail_src res g) as [[a' r]|] eqn:Hr; simplify_eq/=.
  apply mapM_Some_1 in Hres.
  destruct (Forall2_lookup_r _ _ _ _ _ Hres Hr) as (ia & _ & Hu).
  apply _update_group_vars_result in Hu as (Ht & _ & _).
  exists (r_c r), (r_d r). split_and!; [| |done].
  - rewrite (assign_tail_lookup _ _ _ g Hc) by lia.
    by rewrite tail_src_fmap, list_lookup_fmap, Hr.
  - rewrite (assign_tail_lookup _ _ _ g Hd) by lia.
    by rewrite tail_src_fmap, list_lookup_fmap, Hr.
Qed.

Lemma update_Inv self data rnd self' :
  Inv self → update self data rnd = Some self' → Inv self'.
Proof.
  intros (Hcons & Hc & Hd & Hz & Hb & Hlc & Hld) H.
  apply update_steps in H
    as (v1 & v2 & idxs & res & c1 & d1 & z1 & lu1 & zeta1 & z2 & eta1 & lw1 & H).
  cbv zeta in H. destruct H as (_ & Hres & _ & Hc1 & Hd1 & Hz1 & Hsnap & _ & Hh).
  apply _update_hpars_frame in Hh as (a1 & b1 & a2 & b2 & a0 & b0 & ->).
  simpl in Hsnap. unfold Inv; simpl.
  assert (mask_assign (mask_assign (beta self) idxs (0%float :: (rn_beta_ rnd).1))
            (map negb (iact self)) (0%float :: (rn_beta_ rnd).1) !! 0 = Some 0%float) as Hb'.
  { apply mask_assign_head; [|done]. by apply mask_assign_head. }
  destruct Hc as (cr0 & Hcr0 & Hcz), Hd as (dr0 & Hdr0 & Hdz), Hz as (zr0 & Hzr0 & Hzz).
  pose proof (assign_tail_head _ _ _ _ Hc1 Hcr0) as Hc10.
  pose proof (assign_tail_head _ _ _ _ Hd1 Hdr0) as Hd10.
  pose proof (assign_tail_head _ _ _ _ Hz1 Hzr0) as Hz10.
  split_and!.
  - intros g f k Hk. simpl in Hk.
    destruct (snap_cell _ _ _ _ _ _ _ Hsnap Hk) as (j & Hj & Hs).
    exists j. split; [|done]. unfold resolves, cell in *; simpl.
    destruct (z1 !! g) as [zr|] eqn:Hg; simplify_eq/=.
    destruct g as [|g].
    + rewrite Hz10 in Hg. simplify_eq.
      destruct (Hcons 0 f j) as (j0 & (i & Hi & Hj0) & _).
      { unfold cell. rewrite Hzr0. simpl. done. }
      unfold cell in Hi, Hj0. rewrite Hdr0 in Hi. rewrite Hcr0 in Hj0. simpl in *.
      rewrite Hd10, Hc10. simpl. exists i. split; [done|].
      rewrite Hj0. f_equal.
      rewrite (Forall_lookup_1 _ _ _ _ Hzz Hj).
      by rewrite (Forall_lookup_1 _ _ _ _ Hcz Hj0).
    + destruct (group_rows _ _ _ _ _ _ _ _ _ (S g) zr Hres Hc1 Hd1 Hz1)
        as (cr & dr & Hcr & Hdr & Ht); [lia..|done|].
      destruct (take_idx_lookup _ _ _ _ _ Ht Hj) as (i & Hi & Hji).
      exists i. rewrite Hdr, Hcr. simpl. done.
  - by exists cr0.
  - by exists dr0.
  - eapply snap_row_null; [exact Hsnap|]. by exists zr0.
  - done.
  - rewrite (snap_length _ _ _ _ Hsnap), (assign_tail_length _ _ _ Hz1),
      (assign_tail_length _ _ _ Hc1). done.
  - rewrite (snap_length _ _ _ _ Hsnap), (assign_tail_length _ _ _ Hz1),
      (assign_tail_length _ _ _ Hd1). done.
Qed.

Lemma reachable_Inv self : reachable self → Inv self.
Proof.
  induction 1 as [? ? ? ? ? ? ? ? H|? ? ? ? _ IH H].
  - by eapply init_Inv.
  - by eapply update_Inv.
Qed.

(** ** The combined clusters, the reference group and the null effect *)


(** C3: in every reachable state the reference group is entirely null:
    [d[0, :] == 0], [c[0, :] == 0] and [z[0, :] == 0]. *)
Theorem reference_group_stays_null self :
  reachable self →
  row_null self.(d) ∧ row_null self.(c) ∧ row_null self.(z).
Proof.
  intros Hr. destruct (reachable_Inv _ Hr) as (_ & Hc & Hd & Hz & _). done.
Qed.

(** C6: [beta[0]] is [0] in every reachable state, and a call of
    [_update_beta] on such a state leaves it at [0]: the proposal vector
    starts with [0], so neither the Metropolis acceptance nor the forced
    resampling of inactive clusters moves it. *)
Theorem null_effect_stays_zero self :
  reachable self →
  self.(beta) !! 0 = Some 0%float ∧
  ∀ data rnd self',
    _update_beta self data rnd = Some self' →
    (0%float :: rnd.1) !! 0 = Some 0%float ∧ self'.(beta) !! 0 = Some 0%float.
Proof.
  intros Hr. destruct (reachable_Inv _ Hr) as (_ & _ & _ & _ & Hb & _).
  split; [done|]. intros data rnd self' H.
  apply _update_beta_frame in H as [idxs ->]. simpl. split; [done|].
  apply mask_assign_head; [|done]. by apply mask_assign_head.
Qed.

(** ** Occupancy *)

(** C4, as the code has it: after a sweep [occ[k]] is the number of
    (group, feature) pairs of the groups [1, 2, ...] (the reference group 0 is
    left out) whose combined cluster is [k]; it has an entry for every outer
    cluster; [iact[k] = (occ[k] > 0)]; and [nact] is the sum of [iact]. *)
Theorem occupancy_counts_nonreference_groups self data rnd self' :
  update self data rnd = Some self' →
  (∀ k n, self'.(occ) !! k = Some n →
     n = length (filter (λ j, j = k) (concat (drop 1 self'.(z))))) ∧
  (∀ k, k < length self.(lw) → is_Some (self'.(occ) !! k)) ∧
  self'.(iact) = active self'.(occ) ∧
  self'.(nact) = count_true self'.(iact).
Proof.
  intros H. apply update_steps in H
    as (v1 & v2 & idxs & res & c1 & d1 & z1 & lu1 & zeta1 & z2 & eta1 & lw1 & H).
  cbv zeta in H. destruct H as (_ & _ & _ & _ & _ & _ & _ & _ & Hh).
  apply _update_hpars_frame in Hh as (a1 & b1 & a2 & b2 & a0 & b0 & ->). simpl.
  split_and!; try done.
  - intros k n Hk. by apply bincount_lookup in Hk.
  - intros k Hk. apply lookup_lt_is_Some_2.
    unfold occupancy. rewrite bincount_length. unfold bincount_len. lia.
Qed.

(** ** Metropolis moves *)

Lemma metropolis_lookup (ll ll_ u : list float) (i : nat) l l_ r :
  ll !! i = Some l → ll_ !! i = Some l_ → u !! i = Some r →
  metropolis ll ll_ u !! i = Some (accept l l_ r).
Proof.
  intros Hl Hl_ Hr. unfold metropolis. apply lookup_zip_with_Some.
  exists (l, l_), r. split_and!; try done.
  apply lookup_zip_with_Some. eauto.
Qed.


(** C9: after a call of [_update_beta], every cluster [k] whose [iact[k]] is
    false holds the proposal [beta_[k]], whatever the Metropolis comparison
    gave; the proposal of cluster 0 is [0]. *)
Theorem inactive_cluster_takes_proposal self data rnd self' k b p :
  _update_beta self data rnd = Some self' →
  self.(iact) !! k = Some false →
  self.(beta) !! k = Some b →
  (0%float :: rnd.1) !! k = Some p →
  self'.(beta) !! k = Some p ∧ (k = 0 → p = 0%float).
Proof.
  intros H Hi Hb Hp. apply _update_beta_frame in H as [idxs ->]. simpl. split.
  - destruct (lookup_lt_is_Some_2 (mask_assign (beta self) idxs (0%float :: rnd.1)) k)
      as [x Hx].
    { rewrite mask_assign_length. by eapply lookup_lt_Some. }
    rewrite (mask_assign_lookup _ _ _ k x true p Hx); [done| |done].
    by rewrite list_lookup_fmap, Hi.
  - intros ->. simpl in Hp. by simplify_eq.
Qed.

(** ** Hyper-parameters *)









(** ** The group-level update and its arguments *)


(** ** A sweep on a well-shaped state completes *)

Lemma all_lt_Forall n l : all_lt n l = true → Forall (λ k, k < n) l.
Proof.
  unfold all_lt. induction l as [|k l IH]; simpl; [constructor|].
  intros [H1 H2]%andb_true_iff. constructor; [by apply Nat.ltb_lt|auto].
Qed.

Lemma forallb_Forall {A} (h : A → bool) (P : A → Prop) (l : list A) :
  (∀ x, h x = true → P x) → forallb h l = true → Forall P l.
Proof.
  intros Hh. induction l as [|x l IH]; simpl; [constructor|].
  intros [H1 H2]%andb_true_iff. constructor; auto.
Qed.



Lemma take_idx_Forall {A} (P : A → Prop) (a : list A) idx r :
  Forall P a → take_idx a idx = Some r → Forall P r.
Proof.
  intros Ha H. apply take_idx_Forall2 in H. apply Forall_lookup. intros i y Hy.
  destruct (Forall2_lookup_r _ _ _ _ _ H Hy) as (j & _ & Hj).
  by apply (Forall_lookup_1 _ _ _ _ Ha Hj).
Qed.

Lemma take_idx2_is_Some {A} (a : list A) (z0 : list (list nat)) :
  Forall (Forall (λ k, k < length a)) z0 → is_Some (take_idx2 a z0).
Proof.
  intros H. apply mapM_is_Some_2. eapply Forall_impl; [exact H|].
  intros r Hr. by apply take_idx_is_Some.
Qed.

Lemma mask_assign_Forall {A} (P : A → Prop) (a : list A) m b :
  Forall P a → Forall P b → Forall P (mask_assign a m b).
Proof.
  intros Ha. revert m b. induction Ha as [|x a Hx Ha IH]; intros [|t m] b Hb;
    simpl; try by constructor.
  destruct Hb as [|y b Hy Hb]; [by constructor|].
  constructor; [by destruct t|auto].
Qed.









Lemma hsplit_row_length {A} (ns : list nat) (row : list A) :
  ns ≠ [] → length (hsplit_row ns row) = length ns.
Proof.
  revert row. induction ns as [|n ns IH]; intros row Hns; [done|].
  destruct ns as [|n' ns]; [done|].
  change (hsplit_row (n :: n' :: ns) row)
    with (take n row :: hsplit_row (n' :: ns) (drop n row)).
  rewrite length_cons, (IH (drop n row)); done.
Qed.

Lemma transpose_length {A} n (m : list (list A)) :
  Forall (λ r, length r = n) m → length (transpose n m) = n.
Proof.
  induction 1 as [|r m Hr _ IH]; simpl.
  - by rewrite length_replicate.
  - rewrite length_zip_with, IH, Hr. lia.
Qed.



Lemma group_args_lookup self data (i : nat) a :
  group_args self data !! i = Some a →
  self.(c) !! S i = Some (g_c a) ∧ self.(d) !! S i = Some (g_d a) ∧
  g_beta a = self.(beta).
Proof.
  unfold group_args. intros H.
  apply lookup_zip_with_Some in H as ([[cr dr] lz] & rest & -> & H & _).
  apply lookup_zip_with_Some in H as ([cr1 dr1] & lz1 & ? & H & _). simplify_eq.
  apply lookup_zip_with_Some in H as (cr2 & dr2 & ? & Hc & Hd). simplify_eq.
  rewrite lookup_drop in Hc, Hd. simpl. done.
Qed.



Lemma snap_is_Some thr0 (beta0 : list float) (z0 : list (list nat)) :
  Forall (Forall (λ k, k < length beta0)) z0 → is_Some (snap thr0 beta0 z0).
Proof.
  intros H. unfold snap. destruct (take_idx2_is_Some beta0 z0 H) as [bz ->].
  simpl. eauto.
Qed.

Lemma snap_range thr0 beta0 (z0 z' : list (list nat)) K :
  snap thr0 beta0 z0 = Some z' → 0 < K →
  Forall (Forall (λ k, k < K)) z0 → Forall (Forall (λ k, k < K)) z'.
Proof.
  intros H HK Hz. apply snap_Forall2 in H.
  induction H as [|r r' z0 z' Hr _ IH]; [constructor|].
  apply Forall_cons in Hz as [Hr0 Hz]. constructor; [|auto]. clear IH Hz.
  induction Hr as [|j k r r' (b & _ & ->) _ IH]; [constructor|].
  apply Forall_cons in Hr0 as [Hj Hr0]. constructor; [|auto].
  by destruct (abs b <? thr0)%float.
Qed.

Lemma bincount_len_bound (x : list nat) n :
  Forall (λ k, k < n) x → bincount_len x n = n.
Proof.
  unfold bincount_len. intros H.
  assert (foldr (λ i m, max (S i) m) 0 x ≤ n) as Hle; [|lia].
  induction H as [|k x Hk _ IH]; simpl; lia.
Qed.



End Theory.

(** ** The example model is reachable *)

Lemma state0_reachable : @reachable float Example.env Example.state0.
Proof.
  apply (@reach_init float Example.env Example.raw (3, 2) (0, 1)%float None None Example.thr03
           Example.init_draws).
  vm_compute. reflexivity.
Qed.

Lemma state1_reachable : @reachable float Example.env Example.state1.
Proof.
  apply (@reach_update float Example.env Example.state0 Example.data Example.sweep_draws).
  - exact state0_reachable.
  - vm_compute. reflexivity.
Qed.


Lemma reference_group_stays_null_witness :
  row_null Example.state1.(d) ∧ row_null Example.state1.(c) ∧ row_null Example.state1.(z).
Proof. apply (@reference_group_stays_null float Example.env Example.state1). exact state1_reachable. Defined.

Lemma null_effect_stays_zero_witness :
  Example.state1.(beta) !! 0 = Some 0%float ∧
  ∀ data rnd self',
    @_update_beta float Example.env Example.state1 data rnd = Some self' →
    (0%float :: rnd.1) !! 0 = Some 0%float ∧ self'.(beta) !! 0 = Some 0%float.
Proof. apply (@null_effect_stays_zero float Example.env Example.state1). exact state1_reachable. Defined.

(** ** The properties on the example model *)

Lemma occupancy_counts_all_groups_counterexample :
  update Example.state0 Example.data Example.sweep_draws = Some Example.state1 ∧
  Example.state1.(occ) !! 0 = Some 1 ∧
  length (filter (λ j, j = 0) (concat Example.state1.(z))) = 3 ∧
  Example.state1.(occ) !! 0
    ≠ Some (length (filter (λ j, j = 0) (concat Example.state1.(z)))).
Proof.
  split_and!; [vm_compute; reflexivity..|].
  vm_compute. discriminate.
Qed.

Lemma occupancy_counts_nonreference_groups_witness :
  (∀ k n, Example.state1.(occ) !! k = Some n →
     n = length (filter (λ j, j = k) (concat (drop 1 Example.state1.(z))))) ∧
  (∀ k, k < length Example.state0.(lw) → is_Some (Example.state1.(occ) !! k)) ∧
  Example.state1.(iact) = active Example.state1.(occ) ∧
  Example.state1.(nact) = count_true Example.state1.(iact).
Proof.
  apply (occupancy_counts_nonreference_groups
           Example.state0 Example.data Example.sweep_draws Example.state1).
  vm_compute. reflexivity.
Defined.


Lemma inactive_cluster_takes_proposal_witness :
  Example.state_beta.(beta) !! 2 = Some (-1)%float ∧ (2 = 0 → (-1)%float = 0%float).
Proof.
  apply (inactive_cluster_takes_proposal Example.state0 Example.data
           (rn_beta_ Example.sweep_draws) Example.state_beta 2 0.5%float (-1)%float).
  - vm_compute. reflexivity.
  - reflexivity.
  - reflexivity.
  - reflexivity.
Defined.







(** ** Further properties of a sweep *)
Section Sweeps.
Context {Omega : Type} `{E : Env Omega}.

Lemma _update_phi_inv self data rnd self' :
  _update_phi self data rnd = Some self' →
  ∃ m, self' = set_log_phi (mask_assign self.(log_phi) m rnd.1) self.
Proof. unfold _update_phi. intros H. do 2 bind_inv H. simplify_eq. eauto. Qed.

Lemma _update_mu_inv self data rnd self' :
  _update_mu self data rnd = Some self' →
  ∃ m, self' = set_log_mu (mask_assign self.(log_mu) m rnd.1) self.
Proof. unfold _update_mu. intros H. do 2 bind_inv H. simplify_eq. eauto. Qed.

(** The attributes of the state a sweep returns, in terms of the state it
    starts from. *)
Lemma update_fields self data rnd self' :
  update self data rnd = Some self' →
  self'.(iter) = S self.(iter) ∧ self'.(thr) = self.(thr) ∧
  self'.(ngroups) = self.(ngroups) ∧ self'.(nfeatures) = self.(nfeatures) ∧
  self'.(nsamples) = self.(nsamples) ∧
  (∃ m, self'.(log_phi) = mask_assign self.(log_phi) m (rn_phi rnd).1) ∧
  (∃ m, self'.(log_mu) = mask_assign self.(log_mu) m (rn_mu rnd).1) ∧
  (∃ m, self'.(beta) =
          mask_assign (mask_assign self.(beta) m (0%float :: (rn_beta_ rnd).1))
            (map negb self.(iact)) (0%float :: (rn_beta_ rnd).1)) ∧
  length self'.(c) = length self.(c) ∧ length self'.(d) = length self.(d) ∧
  length self'.(z) = length self.(z) ∧ length self'.(lu) = length self.(lu) ∧
  length self'.(zeta) = length self.(zeta) ∧
  length self'.(occ) = length self.(occ) ∧ length self'.(iact) = length self.(occ).
Proof.
  unfold update. intros H. cbv beta zeta in H.
  bind_inv H. apply _update_phi_inv in Hx as [m1 ->].
  bind_inv H. apply _update_mu_inv in Hx as [m2 ->].
  bind_inv H. apply _update_beta_frame in Hx as [m3 ->].
  do 2 bind_inv H. do 5 bind_inv H. do 2 bind_inv H.
  apply _update_hpars_frame in H as (p1 & q1 & p2 & q2 & p0 & q0 & ->).
  fields. fields in HP0. fields in Hx0. fields in Hx1. fields in Hx2. fields in Hx3.
  fields in Hx4. fields in Hx5.
  split_and!; try reflexivity; eauto.
  - by eapply assign_tail_length.
  - by eapply assign_tail_length.
  - rewrite (snap_length _ _ _ _ Hx5). by eapply assign_tail_length.
  - by eapply assign_tail_length.
  - by eapply assign_tail_length.
  - unfold active. by rewrite length_map.
Qed.

(** X1: the sweep counter counts the sweeps: the state built by [__init__] has
    [iter = 0] and every call of [update] that returns adds one. *)
Theorem iter_counts_sweeps n self : reached_after n self → self.(iter) = n.
Proof.
  induction 1 as [? ? ? ? ? ? ? ? H|? ? ? ? ? _ IH H].
  - unfold __init__ in H. cbv beta zeta in H. do 6 bind_inv H. by simplify_eq.
  - apply update_fields in H as (Hi & _). by rewrite Hi, IH.
Qed.

(** X2: a sweep keeps the dimensions of the model: the threshold, the numbers
    of groups, features and samples, the number of outer clusters (the
    lengths of [beta] and [occ]), the lengths of [log_phi] and [log_mu], and
    the number of rows of [c], [d], [z], [lu] and [zeta]. *)
Theorem update_keeps_dimensions self data rnd self' :
  update self data rnd = Some self' →
  self'.(thr) = self.(thr) ∧
  self'.(ngroups) = self.(ngroups) ∧ self'.(nfeatures) = self.(nfeatures) ∧
  self'.(nsamples) = self.(nsamples) ∧
  length self'.(log_phi) = length self.(log_phi) ∧
  length self'.(log_mu) = length self.(log_mu) ∧
  length self'.(beta) = length self.(beta) ∧
  length self'.(occ) = length self.(occ) ∧
  length self'.(iact) = length self.(occ) ∧
  length self'.(c) = length self.(c) ∧ length self'.(d) = length self.(d) ∧
  length self'.(z) = length self.(z) ∧ length self'.(lu) = length self.(lu) ∧
  length self'.(zeta) = length self.(zeta).
Proof.
  intros H. apply update_fields in H
    as (_ & Ht & Hg & Hf & Hs & [m1 Hp] & [m2 Hm] & [m3 Hb] & Hc & Hd & Hz & Hlu
        & Hze & Ho & Hi).
  rewrite Hp, Hm, Hb, !mask_assign_length. done.
Qed.

Lemma zero_col0_heads m m' :
  zero_col0 m = Some m' → Forall (λ row : list nat, row !! 0 = Some 0) m'.
Proof.
  unfold zero_col0. intros H. apply mapM_Some_1 in H.
  apply Forall_lookup. intros i r' Hr'.
  destruct (Forall2_lookup_r _ _ _ _ _ H Hr') as (r & _ & Hr).
  destruct r; by simplify_eq.
Qed.

Lemma assign_tail_Forall {A} (P : A → Prop) (m rows m' : list A) :
  assign_tail m rows = Some m' → Forall P m → Forall P rows → Forall P m'.
Proof.
  unfold assign_tail. intros H Hm Hr. destruct (decide _); simplify_eq.
  - apply Forall_app. split; [by apply Forall_take|done].
  - destruct rows as [|r [|??]]; simplify_eq.
    apply Forall_app. split; [by apply Forall_take|].
    apply Forall_replicate. by apply Forall_cons in Hr as [? _].
Qed.

Lemma _update_group_vars_head a gd a' r :
  _update_group_vars a gd = Some (a', r) →
  a.(g_c) !! 0 = Some 0 → r.(r_c) !! 0 = Some 0.
Proof.
  unfold _update_group_vars. intros H Hc. do 10 bind_inv H. simplify_eq. cbn [r_c].
  assert (a4 !! 0 = Some 0) as Ha4 by (destruct (rn_c_ gd); by simplify_eq).
  apply mask_assign_head; [|done]. by apply mask_assign_head.
Qed.

(** X3: in every reachable state inner slot 0 of every group points to the
    null outer cluster: [c[g][0] = 0] for every group [g]. *)
Theorem slot_zero_points_to_null self :
  reachable self → Forall (λ row : list nat, row !! 0 = Some 0) self.(c).
Proof.
  induction 1 as [? ? ? ? ? ? ? ? H|self data rnd self' _ IH H].
  - unfold __init__ in H. cbv beta zeta in H. do 6 bind_inv H. simplify_eq.
    cbn [c]. by eapply zero_col0_heads.
  - apply update_steps in H
      as (v1 & v2 & idxs & res & c1 & d1 & z1 & lu1 & zeta1 & z2 & eta1 & lw1 & H).
    cbv zeta in H. destruct H as (_ & Hres & _ & Hc1 & _ & _ & _ & _ & Hh).
    apply _update_hpars_frame in Hh as (p1 & q1 & p2 & q2 & p0 & q0 & ->). fields.
    eapply assign_tail_Forall; [exact Hc1|exact IH|].
    apply Forall_fmap, Forall_lookup. intros i [a' r] Hr. simpl.
    apply mapM_Some_1 in Hres.
    destruct (Forall2_lookup_r _ _ _ _ _ Hres Hr) as ([i' a] & Hia & Hu).
    rewrite list_lookup_imap in Hia.
    destruct (group_args _ data !! i) as [a0|] eqn:Ha; simplify_eq/=.
    apply group_args_lookup in Ha as (Hc & _). fields in Hc.
    eapply _update_group_vars_head; [exact Hu|].
    by apply (Forall_lookup_1 _ _ _ _ IH Hc).
Qed.


(** X5: [__init__] raises on a degenerate configuration: no outer cluster
    ([ntrunc[0] = 0]), no group (an empty array of pointers or of slot ids,
    [self.c[0, :] = 0] has no row to write), or no inner slot ([ntrunc[1] = 0],
    [self.c[:, 0] = 0] has no column to write). *)
Theorem init_rejects_degenerate_configuration
    data ntrunc init_hpars eta0 zeta0 thr0 rnd :
  ntrunc.1 = 0 ∨ rn_c rnd = [] ∨ rn_d rnd = [] ∨
  (ntrunc.2 = 0 ∧ Forall (λ r, length r = ntrunc.2) (rn_c rnd)) →
  __init__ data ntrunc init_hpars eta0 zeta0 thr0 rnd = None.
Proof.
  intros Hcase.
  destruct (__init__ data ntrunc init_hpars eta0 zeta0 thr0 rnd) as [self|] eqn:H;
    [exfalso|done].
  unfold __init__ in H. cbv beta zeta in H. do 4 bind_inv H. clear H.
  destruct Hcase as [HK|[Hc|[Hd|[HL Hrows]]]].
  - rewrite length_replicate in HP. lia.
  - by rewrite Hc in Hx.
  - by rewrite Hd in Hx0.
  - destruct (rn_c rnd) as [|r0 m] eqn:Hrn; simplify_eq/=.
    apply Forall_cons in Hrows as [Hr0 _]. rewrite HL in Hr0.
    destruct r0; simplify_eq/=.
Qed.

Lemma snapped_fixed thr0 (beta0 : list float) j k :
  snapped thr0 beta0 j k →
  ∃ b, beta0 !! k = Some b ∧ (if (abs b <? thr0)%float then 0 else k) = k.
Proof.
  intros (b & Hb & ->). destruct (abs b <? thr0)%float eqn:Ht.
  - destruct beta0 as [|b0 beta0]; [done|]. exists b0. split; [done|].
    by destruct (abs b0 <? thr0)%float.
  - exists b. by rewrite Ht.
Qed.

Lemma snap_row_fixed thr0 (beta0 : list float) (r : list nat) :
  Forall (λ k, ∃ b, beta0 !! k = Some b ∧ (if (abs b <? thr0)%float then 0 else k) = k) r →
  ∃ br, take_idx beta0 r = Some br ∧
        zip_with (λ b k, if (abs b <? thr0)%float then 0 else k) br r = r.
Proof.
  induction 1 as [|k r (b & Hb & Hk) _ (br & Hbr & Hz)].
  - by exists [].
  - exists (b :: br). unfold take_idx in *. simpl. rewrite Hb, Hbr. simpl.
    by rewrite Hk, Hz.
Qed.

(** X6: the threshold snap is idempotent: applied to its own result, with the
    same effects and threshold, it changes nothing (and raises nothing). *)
Theorem snap_twice_is_snap_once thr0 beta0 (z0 z' : list (list nat)) :
  snap thr0 beta0 z0 = Some z' → snap thr0 beta0 z' = Some z'.
Proof.
  intros H. apply snap_Forall2 in H. unfold snap.
  assert (∃ bz, take_idx2 beta0 z' = Some bz ∧
                zip_with (zip_with (λ b k, if (abs b <? thr0)%float then 0 else k)) bz z'
                = z') as (bz & -> & Hz); [|simpl; by rewrite Hz].
  induction H as [|r r' z0 z' Hr _ (bz & Hbz & Hz)]; [by exists []|].
  destruct (snap_row_fixed thr0 beta0 r') as (br & Hbr & Hzr).
  { apply Forall_lookup. intros i k Hk.
    destruct (Forall2_lookup_r _ _ _ _ _ Hr Hk) as (j & _ & Hs).
    by eapply snapped_fixed. }
  exists (br :: bz). unfold take_idx2 in *. simpl. rewrite Hbr, Hbz. simpl.
  by rewrite Hzr, Hz.
Qed.

Lemma abs_ltb_nonpositive (b t : float) :
  (t <=? 0)%float = true → (abs b <? t)%float = false.
Proof.
  rewrite FloatAxioms.leb_spec, FloatAxioms.ltb_spec, FloatAxioms.abs_spec.
  change (Prim2SF 0) with (S754_zero false). unfold SFleb, SFltb.
  destruct (Prim2SF b) as [[]|[]| |[] mb eb], (Prim2SF t) as [[]|[]| |[] mt et];
    simpl; try done.
Qed.

(** X7: a threshold that is zero or negative switches the snap off: no
    magnitude is below it, so the snap returns the matrix it is given. *)
Theorem nonpositive_threshold_never_snaps thr0 beta0 (z0 z' : list (list nat)) :
  (thr0 <=? 0)%float = true → snap thr0 beta0 z0 = Some z' → z' = z0.
Proof.
  intros Ht H. apply snap_Forall2 in H.
  induction H as [|r r' z0 z' Hr _ IH]; [done|]. f_equal; [|done]. clear IH.
  induction Hr as [|j k r r' (b & _ & Hk) _ IH]; [done|]. f_equal; [|done].
  by rewrite (abs_ltb_nonpositive b thr0 Ht) in Hk.
Qed.

(** ** Occupancy counts *)

Lemma filter_lt_succ (x : list nat) N :
  length (filter (λ i, i < S N) x)
  = length (filter (λ i, i < N) x) + length (filter (λ i, i = N) x).
Proof.
  induction x as [|a x IH]; [done|]. rewrite !filter_cons.
  destruct (decide (a < S N)), (decide (a < N)), (decide (a = N)); simpl; lia.
Qed.

Lemma sum_counts (x : list nat) N :
  sum_list (map (λ k, length (filter (λ i, i = k) x)) (seq 0 N))
  = length (filter (λ i, i < N) x).
Proof.
  induction N as [|N IH].
  - simpl. induction x as [|a x IHx]; [done|].
    rewrite filter_cons. destruct (decide (a < 0)); [lia|done].
  - rewrite seq_S, map_app, sum_list_with_app, IH, filter_lt_succ. simpl. lia.
Qed.

Lemma bincount_len_covers (x : list nat) n :
  Forall (λ i, i < bincount_len x n) x.
Proof.
  unfold bincount_len. induction x as [|a x IH]; constructor; simpl; [lia|].
  eapply Forall_impl; [exact IH|]. simpl. lia.
Qed.

Lemma filter_all {A} (P : A → Prop) `{∀ x, Decision (P x)} (l : list A) :
  Forall P l → filter P l = l.
Proof.
  induction 1 as [|a l Ha _ IH]; [done|].
  rewrite filter_cons. destruct (decide (P a)); [by rewrite IH|done].
Qed.

(** Every index is counted in exactly one bin. *)
Lemma bincount_sum (x : list nat) n : sum_list (bincount x n) = length x.
Proof.
  unfold bincount. rewrite sum_counts.
  by rewrite (filter_all _ x (bincount_len_covers x n)).
Qed.

Lemma bincount_own_length (x : list nat) n :
  bincount x (length (bincount x n)) = bincount x n.
Proof.
  rewrite bincount_length. unfold bincount. f_equal. f_equal.
  unfold bincount_len. lia.
Qed.

Lemma reachable_occupancy self :
  reachable self →
  self.(occ) = occupancy self.(z) (length self.(occ)) ∧
  self.(iact) = active self.(occ) ∧
  self.(nact) = count_true self.(iact) ∧
  sum_list self.(occ) = length (concat (drop 1 self.(z))).
Proof.
  assert (∀ zz n, occupancy zz n = occupancy zz (length (occupancy zz n)) ∧
                  sum_list (occupancy zz n) = length (concat (drop 1 zz))) as Hocc.
  { intros zz n. unfold occupancy. split; [by rewrite bincount_own_length|].
    apply bincount_sum. }
  destruct 1 as [? ? ? ? ? ? ? ? H|self data rnd self' _ H].
  - unfold __init__ in H. cbv beta zeta in H. do 6 bind_inv H. simplify_eq. fields.
    destruct (Hocc a3 (length (replicate ntrunc.1 (- np_log (of_nat ntrunc.1))%float)))
      as [H1 H2].
    split_and!; try done.
  - apply update_steps in H
      as (v1 & v2 & idxs & res & c1 & d1 & z1 & lu1 & zeta1 & z2 & eta1 & lw1 & H).
    cbv zeta in H. destruct H as (_ & _ & _ & _ & _ & _ & _ & _ & Hh).
    apply _update_hpars_frame in Hh as (p1 & q1 & p2 & q2 & p0 & q0 & ->). fields.
    destruct (Hocc z2 (length (lw self))) as [H1 H2]. split_and!; try done.
Qed.

(** X8: the occupancy statistics are never stale: in every reachable state
    [occ] is the bin count of the combined clusters of the non-reference
    groups, [iact] marks its positive entries, [nact] counts them, and the
    entries of [occ] add up to the number of (group, feature) cells of the
    non-reference groups, each cell being counted exactly once. *)
Theorem occupancy_caches_are_current self :
  reachable self →
  self.(occ) = occupancy self.(z) (length self.(occ)) ∧
  self.(iact) = active self.(occ) ∧
  self.(nact) = count_true self.(iact) ∧
  sum_list self.(occ) = length (concat (drop 1 self.(z))).
Proof. apply reachable_occupancy. Qed.

Lemma count_true_le (m : list bool) : count_true m ≤ length m.
Proof. unfold count_true. apply length_filter. Qed.

Lemma active_positive_sum (l : list nat) :
  0 < sum_list l → 0 < count_true (active l).
Proof.
  unfold count_true, active. induction l as [|n l IH]; simpl; [lia|].
  intros Hs. rewrite filter_cons. destruct n as [|n]; simpl.
  - destruct (decide (false = true)); [done|]. apply IH. simpl in Hs. lia.
  - destruct (decide (true = true)); [simpl; lia|done].
Qed.

(** X20: the number of active clusters is at most the number of outer
    clusters, and at least one as soon as a non-reference group has a
    feature. *)
Theorem active_count_bounds self :
  reachable self →
  self.(nact) ≤ length self.(occ) ∧
  (concat (drop 1 self.(z)) ≠ [] → 1 ≤ self.(nact)).
Proof.
  intros Hr. destruct (reachable_occupancy self Hr) as (_ & Hi & Hn & Hs).
  rewrite Hn, Hi. split.
  - etrans; [apply count_true_le|]. unfold active. by rewrite length_map.
  - intros Hne. apply active_positive_sum. rewrite Hs.
    destruct (concat (drop 1 (z self))); [done|simpl; lia].
Qed.


(** ** Transposition and column blocks *)

Lemma transpose_row_length {A} n (m : list (list A)) (f : nat) row :
  Forall (λ r, length r = n) m → transpose n m !! f = Some row →
  length row = length m.
Proof.
  intros Hm. revert f row. induction Hm as [|r m Hr _ IH]; intros f row; simpl.
  - intros [-> _]%lookup_replicate. done.
  - rewrite lookup_zip_with. intros Hf.
    destruct (r !! f) as [x|]; [|done]. simpl in Hf.
    destruct (transpose n m !! f) as [t|] eqn:Ht; [|done]. simpl in Hf.
    injection Hf as <-. simpl. f_equal. by eapply IH.
Qed.

(** The transpose exchanges the two indices: entry [(f, g)] of [m.T] is entry
    [(g, f)] of [m], for a matrix whose rows all have [n] entries. *)
Lemma transpose_swaps_indices {A} n (m : list (list A)) (f g : nat) :
  Forall (λ r, length r = n) m →
  cell (transpose n m) f g = cell m g f.
Proof.
  intros Hm. revert g. induction Hm as [|r m Hr Hm IH]; intros g; unfold cell in *; simpl.
  - destruct (replicate n [] !! f) as [row|] eqn:Hrow; simpl; [|done].
    apply lookup_replicate in Hrow as [-> _]. done.
  - rewrite lookup_zip_with.
    destruct (r !! f) as [x|] eqn:Hx; simpl.
    + assert (f < n) as Hf by (rewrite <- Hr; by eapply lookup_lt_Some).
      destruct (lookup_lt_is_Some_2 (transpose n m) f) as [t Ht].
      { by rewrite transpose_length. }
      rewrite Ht. simpl. destruct g as [|g]; simpl; [done|].
      specialize (IH g). rewrite Ht in IH. simpl in IH. done.
    + destruct g as [|g]; simpl; [done|].
      destruct (m !! g) as [row|] eqn:Hrow; simpl; [|done].
      symmetry. apply lookup_ge_None_2.
      rewrite (Forall_lookup_1 _ _ _ _ Hm Hrow), <- Hr. by apply lookup_ge_None_1.
Qed.

(** X10: splitting a row into the column blocks of the groups loses nothing:
    the blocks concatenate to the row, there is one block per group, and when
    the replicate counts add up to the length of the row, block [g] has
    [ns[g]] entries. *)
Theorem hsplit_row_partitions {A} (ns : list nat) (row : list A) :
  concat (hsplit_row ns row) = row ∧
  (ns ≠ [] → length (hsplit_row ns row) = length ns) ∧
  (ns ≠ [] → sum_list ns = length row →
   Forall2 (λ n block, length block = n) ns (hsplit_row ns row)).
Proof.
  split_and!.
  - revert row. induction ns as [|n ns IH]; intros row; [simpl; by rewrite app_nil_r|].
    destruct ns as [|n' ns]; [simpl; by rewrite app_nil_r|].
    change (hsplit_row (n :: n' :: ns) row)
      with (take n row :: hsplit_row (n' :: ns) (drop n row)).
    rewrite concat_cons, IH. apply take_drop.
  - apply hsplit_row_length.
  - revert row. induction ns as [|n ns IH]; intros row Hne Hs; [done|].
    destruct ns as [|n' ns].
    + simpl in *. constructor; [lia|constructor].
    + change (hsplit_row (n :: n' :: ns) row)
        with (take n row :: hsplit_row (n' :: ns) (drop n row)).
      change (sum_list (n :: n' :: ns)) with (n + sum_list (n' :: ns)) in Hs.
      constructor.
      * rewrite length_take. lia.
      * apply IH; [done|]. rewrite length_drop. lia.
Qed.

(** ** The likelihood of a count *)

Lemma np_repeat_lookup {A} (ns : list nat) (row : list A) (j : nat) :
  length row = length ns →
  np_repeat (PerColumn ns) row !! j = group_of_sample ns j ≫= (λ g, row !! g).
Proof.
  unfold np_repeat. revert row j.
  induction ns as [|n ns IH]; intros [|x row] j Hl; simpl in *; try lia; try done.
  rewrite lookup_app. destruct (Nat.ltb_spec j n) as [Hj|Hj].
  - by rewrite lookup_replicate_2.
  - rewrite (lookup_ge_None_2 (replicate n x) j) by (rewrite length_replicate; lia).
    rewrite length_replicate, IH by lia.
    by destruct (group_of_sample ns (j - n)).
Qed.

Lemma np_repeat_length {A} (ns : list nat) (row : list A) :
  length row = length ns → length (np_repeat (PerColumn ns) row) = sum_list ns.
Proof.
  unfold np_repeat. revert row.
  induction ns as [|n ns IH]; intros [|x row] Hl; simpl in *; try lia; try done.
  rewrite length_app, length_replicate, IH by lia. done.
Qed.

(** X11: [np.repeat(row, nreplicas)] gives every sample the entry of its
    group: the result has one entry per sample, and the entry of sample [j] is
    the entry of [row] at the group of [j]. *)
Theorem repeat_gives_each_sample_its_group {A} (ns : list nat) (row : list A) :
  length row = length ns →
  length (np_repeat (PerColumn ns) row) = sum_list ns ∧
  ∀ j g, group_of_sample ns j = Some g →
         np_repeat (PerColumn ns) row !! j = row !! g.
Proof.
  intros Hl. split; [by apply np_repeat_length|].
  intros j g Hg. by rewrite np_repeat_lookup, Hg.
Qed.

Lemma broadcast2_same_length {A B C} (h : A → B → C) (xs : list A) (ys : list B) :
  length xs = length ys → broadcast2 h xs ys = zip_with h xs ys.
Proof.
  destruct xs as [|x [|x' xs]], ys as [|y [|y' ys]]; simpl; intros; try done; lia.
Qed.

(** X12: the likelihood matrix scores every count under the effect of the
    cluster that its feature has in the group of its sample.  For feature [f]
    and sample [j] of group [g], with [k = z[g][f]] and [e = beta[k]], the
    entry [(f, j)] is [nbinomln(count, alpha, alpha / (alpha + lib_size *
    exp(log_mu[f] + e)))] with [alpha = 1 / exp(log_phi[f])]. *)
Theorem loglik_uses_the_effect_of_the_cell self data lp lm (b : list float) ll
    (f j g k : nat) e crow cnt lib p m :
  Forall (λ r, length r = self.(nfeatures)) self.(z) →
  length data.(nreplicas) = length self.(z) →
  length data.(lib_sizes) = sum_list data.(nreplicas) →
  model_loglik self data lp lm b = Some ll →
  group_of_sample data.(nreplicas) j = Some g →
  cell self.(z) g f = Some k → b !! k = Some e →
  data.(counts) !! f = Some crow → length crow = sum_list data.(nreplicas) →
  crow !! j = Some cnt → data.(lib_sizes) !! j = Some lib →
  lp !! f = Some p → lm !! f = Some m →
  cell ll f j =
    Some (nbinomln cnt (1 / np_exp p)
            ((1 / np_exp p) / ((1 / np_exp p) + lib * np_exp (m + e)))%float).
Proof.
  intros Hz Hn Hlib Hll Hg Hk He Hc Hlc Hcnt Hl Hp Hm.
  unfold model_loglik in Hll. bind_inv Hll. simplify_eq. rename a into bz.
  rewrite <- (transpose_swaps_indices _ _ f g Hz) in Hk. unfold cell in Hk.
  destruct (transpose (nfeatures self) (z self) !! f) as [trow|] eqn:Ht; simplify_eq/=.
  apply mapM_Some_1 in Hx.
  destruct (Forall2_lookup_l _ _ _ _ _ Hx Ht) as (brow & Hb & Hti).
  pose proof (take_idx_length _ _ _ Hti) as Hlb.
  rewrite (transpose_row_length _ _ _ _ Hz Ht), <- Hn in Hlb.
  apply take_idx_Forall2 in Hti.
  destruct (Forall2_lookup_l _ _ _ _ _ Hti Hk) as (e' & Hbg & He').
  rewrite He in He'. simplify_eq.
  unfold cell, _compute_loglik. rewrite lookup_zip_with.
  assert (zip (counts data) lp !! f = Some (crow, p)) as -> by
    (apply lookup_zip_with_Some; eauto).
  assert (zip lm bz !! f = Some (m, brow)) as -> by
    (apply lookup_zip_with_Some; eauto).
  simpl.
  pose proof (np_repeat_length (nreplicas data) brow Hlb) as Hlr.
  pose proof (np_repeat_lookup (nreplicas data) brow j Hlb) as Hrl.
  rewrite Hg in Hrl. simpl in Hrl. rewrite Hbg in Hrl. unfold np_repeat in Hlr, Hrl.
  rewrite (broadcast2_same_length _ (lib_sizes data)) by by rewrite Hlr.
  rewrite broadcast2_same_length
    by (rewrite length_zip_with, Hlr, Hlib, Hlc; lia).
  rewrite !lookup_zip_with, Hcnt, Hl, Hrl. done.
Qed.

(** ** The moves of the effects and of the group indicators *)

(** X13: [_update_beta] moves the effect of an active cluster by the
    Metropolis rule on the log-likelihoods summed, per cluster, over all the
    counts currently assigned to it: cluster [k] with [iact[k]] true takes the
    proposal exactly when its summed proposed log-likelihood exceeds the
    current one or its uniform draw is below [exp] of the difference, and
    keeps its effect otherwise. *)
Theorem active_cluster_moves_by_metropolis self data rnd self' :
  _update_beta self data rnd = Some self' →
  ∃ loglik loglik_,
    model_loglik self data self.(log_phi) self.(log_mu) self.(beta) = Some loglik ∧
    model_loglik self data self.(log_phi) self.(log_mu) (0%float :: rnd.1)
      = Some loglik_ ∧
    ∀ (k : nat) b p l l_ u,
      self.(iact) !! k = Some true →
      self.(beta) !! k = Some b → (0%float :: rnd.1) !! k = Some p →
      bincount_w (concat (map (np_repeat (PerColumn data.(nreplicas)))
                            (transpose self.(nfeatures) self.(z))))
                 (concat loglik) (length self.(lw)) !! k = Some l →
      bincount_w (concat (map (np_repeat (PerColumn data.(nreplicas)))
                            (transpose self.(nfeatures) self.(z))))
                 (concat loglik_) (length self.(lw)) !! k = Some l_ →
      rnd.2 !! k = Some u →
      self'.(beta) !! k =
        Some (if (l <? l_)%float || (u <? np_exp (l_ - l))%float then p else b).
Proof.
  unfold _update_beta. intros H. do 2 bind_inv H. simplify_eq.
  eexists _, _. split; [eassumption|]. split; [eassumption|]. fields.
  intros k b p l l_ u Hi Hb Hp Hl Hl_ Hu.
  rewrite (mask_assign_lookup _ _ _ k
             (if accept l l_ u then p else b) false p); [done| | |done].
  - apply mask_assign_lookup; [done| |done]. by apply metropolis_lookup.
  - by rewrite list_lookup_fmap, Hi.
Qed.

(** The steps of a call of [_update_group_vars] that returns. *)
Lemma _update_group_vars_inv a gd a' r :
  _update_group_vars a gd = Some (a', r) →
  ∃ cd ll cd_ ll_ x t,
    take_idx a.(g_c) a.(g_d) = Some cd ∧ group_loglik a cd = Some ll ∧
    take_idx a.(g_c) (rn_d_ gd) = Some cd_ ∧ group_loglik a cd_ = Some ll_ ∧
    r.(r_d) = mask_assign a.(g_d) (metropolis ll ll_ (rn_u_d gd)) (rn_d_ gd) ∧
    rn_c_ gd = x :: t ∧
    (∃ m, r.(r_c) =
            mask_assign (mask_assign a.(g_c) m (0 :: t))
              (map negb (active (bincount r.(r_d) (length a.(g_lu))))) (0 :: t)) ∧
    r.(r_zeta) =
      sample_eta_west a.(g_zeta)
        (count_true (active (bincount r.(r_d) (length a.(g_lu)))))
        (sum_list (bincount r.(r_d) (length a.(g_lu)))) (w_zeta gd) ∧
    r.(r_lu) = (sample_stick (bincount r.(r_d) (length a.(g_lu))) r.(r_zeta) (w_lu gd)).1 ∧
    take_idx r.(r_c) r.(r_d) = Some r.(r_z).
Proof.
  unfold _update_group_vars. intros H. do 10 bind_inv H. simplify_eq.
  destruct (rn_c_ gd) as [|x t] eqn:Hrn; simplify_eq.
  cbn [r_c r_d r_z r_lu r_zeta].
  eexists _, _, _, _, x, t. split_and!; try eassumption; try reflexivity. eauto.
Qed.


Lemma filter_eq_absent (l : nat) (x : list nat) :
  l ∉ x → filter (λ i, i = l) x = [].
Proof.
  induction x as [|a x IH]; [done|]. intros Hn. rewrite filter_cons.
  destruct (decide (a = l)) as [->|]; [exfalso; apply Hn; left|].
  apply IH. intros Hin. apply Hn. by right.
Qed.

(** X15: an inner slot that holds no feature after the move of the features
    is given its proposed pointer, whatever the Metropolis comparison says;
    the proposal of slot 0 is the null cluster; and the returned combined
    clusters are the returned pointers read at the returned slots. *)
Theorem group_update_frees_empty_slots a gd a' r :
  _update_group_vars a gd = Some (a', r) →
  (∀ (l : nat) x p,
     a.(g_c) !! l = Some x → <[0:=0]> (rn_c_ gd) !! l = Some p →
     l < length a.(g_lu) → l ∉ r.(r_d) →
     r.(r_c) !! l = Some p) ∧
  <[0:=0]> (rn_c_ gd) !! 0 = Some 0 ∧
  (∀ (f : nat) k, r.(r_z) !! f = Some k →
     ∃ i, r.(r_d) !! f = Some i ∧ r.(r_c) !! i = Some k).
Proof.
  intros H. apply _update_group_vars_inv in H
    as (cd & ll & cd_ & ll_ & x0 & t & _ & _ & _ & _ & _ & Hrn & [m Hc] & _ & _ & Hz).
  rewrite Hrn. simpl. split_and!; [|done|].
  - intros l x p Hx Hp Hl Hn. rewrite Hc.
    destruct (lookup_lt_is_Some_2 (mask_assign (g_c a) m (0 :: t)) l) as [y Hy].
    { rewrite mask_assign_length. by eapply lookup_lt_Some. }
    rewrite (mask_assign_lookup _ _ _ l y true p Hy); [done| |done].
    unfold active. rewrite !list_lookup_fmap. unfold bincount.
    rewrite list_lookup_fmap, lookup_seq_lt by (unfold bincount_len; lia).
    simpl. by rewrite filter_eq_absent.
  - intros f k Hk. by eapply take_idx_lookup.
Qed.

(** X16: the concentration of a group is resampled from the number of inner
    slots that hold a feature and the number of features of the group, and
    the inner weights from the slot occupancies and the new concentration. *)
Theorem group_update_resamples_concentration a gd a' r :
  _update_group_vars a gd = Some (a', r) →
  r.(r_zeta) =
    sample_eta_west a.(g_zeta)
      (count_true (active (bincount r.(r_d) (length a.(g_lu)))))
      (length a.(g_d)) (w_zeta gd) ∧
  r.(r_lu) = (sample_stick (bincount r.(r_d) (length a.(g_lu))) r.(r_zeta) (w_lu gd)).1 ∧
  length r.(r_d) = length a.(g_d).
Proof.
  intros H. apply _update_group_vars_inv in H
    as (cd & ll & cd_ & ll_ & x0 & t & _ & _ & _ & _ & Hd & _ & _ & Hzeta & Hlu & _).
  assert (length (r_d r) = length (g_d a)) as Hl by by rewrite Hd, mask_assign_length.
  rewrite Hzeta at 1. rewrite bincount_sum, Hl. done.
Qed.

(** ** A NaN likelihood *)

Lemma is_nan_eq (x : float) : is_nan x = true → x = nan.
Proof.
  unfold is_nan. rewrite FloatAxioms.eqb_spec. intros H.
  rewrite <- (SF2Prim_Prim2SF x). unfold SFeqb in H.
  destruct (Prim2SF x) as [[]|[]| |[] mx ex]; simpl in H; try done.
  all: by rewrite Z.compare_refl, Pos.compare_cont_refl in H.
Qed.

Lemma ltb_nan (x : float) : (nan <? x)%float = false ∧ (x <? nan)%float = false.
Proof.
  rewrite !FloatAxioms.ltb_spec. change (Prim2SF nan) with S754_nan.
  unfold SFltb. split; [done|]. by destruct (Prim2SF x) as [[]|[]| |[] mx ex].
Qed.

Lemma sub_nan (x : float) : (nan - x)%float = nan ∧ (x - nan)%float = nan.
Proof.
  split.
  - rewrite <- (SF2Prim_Prim2SF (nan - x)), FloatAxioms.sub_spec.
    by change (Prim2SF nan) with S754_nan.
  - rewrite <- (SF2Prim_Prim2SF (x - nan)), FloatAxioms.sub_spec.
    change (Prim2SF nan) with S754_nan. unfold SF64sub, SFsub.
    by destruct (Prim2SF x) as [[]|[]| |[] mx ex].
Qed.

Lemma accept_nan (l l_ u : float) :
  np_exp nan = nan → is_nan l = true ∨ is_nan l_ = true → accept l l_ u = false.
Proof.
  intros He [->%is_nan_eq| ->%is_nan_eq]; unfold accept.
  - rewrite (proj1 (ltb_nan l_)), (proj2 (sub_nan l_)), He, (proj2 (ltb_nan u)). done.
  - rewrite (proj2 (ltb_nan l)), (proj1 (sub_nan l)), He, (proj2 (ltb_nan u)). done.
Qed.

(** X17: a NaN likelihood rejects the proposal.  When [exp] maps NaN to NaN,
    a feature whose current or proposed summed log-likelihood is NaN keeps its
    [log_phi] in [_update_phi]: both comparisons of the Metropolis rule are
    false, whatever the uniform draw. *)
Theorem nan_likelihood_keeps_the_current_value self data rp sp :
  np_exp nan = nan →
  _update_phi self data rp = Some sp →
  ∃ loglik loglik_,
    model_loglik self data self.(log_phi) self.(log_mu) self.(beta) = Some loglik ∧
    model_loglik self data rp.1 self.(log_mu) self.(beta) = Some loglik_ ∧
    ∀ (i : nat) cur new l l_ u,
      self.(log_phi) !! i = Some cur → rp.1 !! i = Some new →
      loglik !! i = Some l → loglik_ !! i = Some l_ → rp.2 !! i = Some u →
      is_nan (np_sum l) = true ∨ is_nan (np_sum l_) = true →
      sp.(log_phi) !! i = Some cur.
Proof.
  intros He. unfold _update_phi. intros H. do 2 bind_inv H. simplify_eq.
  eexists _, _. split; [eassumption|]. split; [eassumption|]. fields.
  intros i cur new l l_ u Hc Hn Hl Hl_ Hu Hnan.
  rewrite (mask_assign_lookup _ _ _ i cur (accept (np_sum l) (np_sum l_) u) new);
    [by rewrite (accept_nan _ _ _ He Hnan)|done| |done].
  apply metropolis_lookup; [| |done].
  - by rewrite list_lookup_fmap, Hl.
  - by rewrite list_lookup_fmap, Hl_.
Qed.

(** ** Shapes and index ranges *)

Lemma Forall_forallb {A} (h : A → bool) (P : A → Prop) (l : list A) :
  (∀ x, P x → h x = true) → Forall P l → forallb h l = true.
Proof.
  intros Hh. induction 1 as [|x l Hx _ IH]; simpl; [done|].
  by rewrite (Hh x Hx), IH.
Qed.

Lemma Forall_all_lt n l : Forall (λ k, k < n) l → all_lt n l = true.
Proof. apply Forall_forallb. intros k Hk. by apply Nat.ltb_lt. Qed.

Lemma zero_col0_Some (m : list (list nat)) :
  Forall (λ r, 0 < length r) m → zero_col0 m = Some (map (λ r, 0 :: drop 1 r) m).
Proof.
  unfold zero_col0. induction 1 as [|r m Hr _ IH]; [done|].
  simpl. rewrite IH. destruct r; simpl in *; [lia|]. by rewrite drop_0.
Qed.

Lemma compose_is_Some (c0 d0 : list (list nat)) :
  Forall (λ cd, Forall (λ i, i < length cd.1) cd.2) (zip c0 d0) →
  is_Some (mapM (λ cd, take_idx cd.1 cd.2) (zip c0 d0)).
Proof.
  intros H. apply mapM_is_Some_2. eapply Forall_impl; [exact H|].
  intros [cr dr] Hcd. simpl in *. by apply take_idx_is_Some.
Qed.

Lemma compose_range (c0 d0 z1 : list (list nat)) K :
  mapM (λ cd, take_idx cd.1 cd.2) (zip c0 d0) = Some z1 →
  Forall (Forall (λ k, k < K)) c0 → Forall (Forall (λ k, k < K)) z1.
Proof.
  intros H Hc. apply mapM_Some_1 in H. apply Forall_lookup. intros g zr Hzr.
  destruct (Forall2_lookup_r _ _ _ _ _ H Hzr) as ([cr dr] & Hcd & Ht).
  apply lookup_zip_with_Some in Hcd as (cr' & dr' & ? & Hcr & _). simplify_eq/=.
  eapply take_idx_Forall; [|exact Ht]. by apply (Forall_lookup_1 _ _ _ _ Hc Hcr).
Qed.

Lemma Forall_zip {A B} (P : A → B → Prop) (l : list A) (k : list B) :
  Forall2 P l k → Forall (λ ab, P ab.1 ab.2) (zip l k).
Proof. induction 1; simpl; by constructor. Qed.

(** X18: with positive truncation levels, at least two groups and draws of
    the shapes and ranges that [rn.normal] and [rn.choice] return, [__init__]
    raises nothing and the model it builds is well shaped: [lw], [occ] and
    [beta] have one entry per outer cluster, [c], [d], [z], [lu] and [zeta]
    one row or entry per group, every cluster id is below the number of outer
    clusters and every slot id below the number of inner slots. *)
Theorem init_builds_a_well_shaped_model data ntrunc init_hpars eta0 zeta0 thr0 rnd :
  init_ready data ntrunc rnd = true →
  ∃ self,
    __init__ data ntrunc init_hpars eta0 zeta0 thr0 rnd = Some self ∧
    well_shaped self = true ∧
    length self.(beta) = ntrunc.1 ∧ length self.(c) = data.(groups) ∧
    Forall (λ r, length r = ntrunc.2) self.(c).
Proof.
  unfold init_ready. rewrite !andb_true_iff.
  intros (((((((HK & HL) & HG) & Hb) & Hlc) & Hld) & Hc) & Hd).
  apply Nat.ltb_lt in HK, HL. apply Nat.leb_le in HG. apply Nat.eqb_eq in Hb, Hlc, Hld.
  apply (forallb_Forall _ (λ r, length r = ntrunc.2 ∧ Forall (λ k, k < ntrunc.1) r)) in Hc.
  2:{ intros r [H1 H2]%andb_true_iff. apply Nat.eqb_eq in H1.
      split; [done|by apply all_lt_Forall]. }
  apply (forallb_Forall _ (Forall (λ i, i < ntrunc.2))) in Hd; [|apply all_lt_Forall].
  destruct ntrunc as [K L]. simpl in *.
  destruct (rn_c rnd) as [|cr0 cm] eqn:Hrc; [simpl in *; lia|].
  destruct (rn_d rnd) as [|dr0 dm] eqn:Hrd; [simpl in *; lia|].
  apply Forall_cons in Hc as [[Hcr0 _] Hcm]. apply Forall_cons in Hd as [_ Hdm].
  set (c1 := map (λ _ : nat, 0) cr0 :: cm).
  set (d0 := map (λ _ : nat, 0) dr0 :: dm).
  set (c0 := map (λ r, 0 :: drop 1 r) c1).
  assert (Forall (λ r, length r = L ∧ Forall (λ k, k < K) r) c1) as Hc1.
  { constructor; [|done]. rewrite length_map. split; [done|].
    apply Forall_fmap, Forall_true. intros ?. simpl. done. }
  assert (zero_col0 c1 = Some c0) as Hzc.
  { apply zero_col0_Some. eapply Forall_impl; [exact Hc1|]. intros r [Hr _]. simpl. lia. }
  assert (Forall (λ r, length r = L ∧ Forall (λ k, k < K) r) c0) as Hc0.
  { apply Forall_fmap. eapply Forall_impl; [exact Hc1|]. intros r [Hr Hk]. simpl.
    rewrite length_drop. split; [lia|]. constructor; [done|]. by apply Forall_drop. }
  assert (Forall (Forall (λ i, i < L)) d0) as Hd0.
  { constructor; [|done]. apply Forall_fmap, Forall_true. intros ?. simpl. done. }
  assert (length c0 = groups data) as Hlc0 by (unfold c0, c1; rewrite length_map; done).
  assert (length d0 = groups data) as Hld0 by done.
  assert (Forall (λ cd, Forall (λ i, i < length cd.1) cd.2) (zip c0 d0)) as Hcd.
  { apply Forall_lookup. intros g [cr dr] Hg.
    apply lookup_zip_with_Some in Hg as (cr' & dr' & ? & Hcr & Hdr). simplify_eq/=.
    destruct (Forall_lookup_1 _ _ _ _ Hc0 Hcr) as [-> _].
    by apply (Forall_lookup_1 _ _ _ _ Hd0 Hdr). }
  destruct (compose_is_Some c0 d0 Hcd) as [z1 Hz1].
  assert (Forall (Forall (λ k, k < K)) c0) as Hc0K.
  { eapply Forall_impl; [exact Hc0|]. by intros r [_ Hr]. }
  pose proof (compose_range _ _ _ K Hz1 Hc0K) as Hz1K.
  assert (length z1 = groups data) as Hlz1.
  { apply mapM_Some_1, Forall2_length in Hz1. rewrite length_zip_with in Hz1. lia. }
  destruct (snap_is_Some thr0 (0%float :: rn_beta rnd) z1) as [z0 Hz0].
  { simpl. by rewrite Hb. }
  pose proof (snap_range _ _ _ _ K Hz0 HK Hz1K) as Hz0K.
  pose proof (snap_length _ _ _ _ Hz0) as Hlz0.
  eexists. split.
  { unfold __init__. cbv beta zeta. cbn [fst snd].
    rewrite option_guard_True by (rewrite length_replicate; done).
    rewrite Hrc, Hrd. cbn [zero_row0 mbind option_bind]. fold c1 d0.
    rewrite Hzc. cbn [mbind option_bind]. rewrite Hz1. cbn [mbind option_bind].
    rewrite Hz0. cbn [mbind option_bind]. reflexivity. }
  fields. split_and!; try done.
  - unfold well_shaped. fields. cbn [length]. rewrite Hb, !length_replicate.
    unfold occupancy. rewrite bincount_length, bincount_len_bound
      by (apply Forall_concat, Forall_drop, Hz0K).
    rewrite Hlc0, Hld0, Hlz0, Hlz1, !Nat.eqb_refl.
    rewrite (proj2 (Nat.ltb_lt 0 K) HK), (proj2 (Nat.leb_le 2 (groups data)) HG).
    rewrite (Forall_forallb _ _ _ (Forall_all_lt K) Hz0K).
    rewrite (Forall_forallb _ _ _ (Forall_all_lt K) Hc0K).
    rewrite (Forall_forallb _ (λ cd, Forall (λ i, i < length cd.1) cd.2) (zip c0 d0));
      [|intros cd; apply Forall_all_lt|done].
    rewrite (Forall_forallb _ (λ r, length r = L ∧ Forall (λ k, k < K) r) c0);
      [done| |done].
    intros r [Hr _]. apply Nat.ltb_lt. lia.
  - eapply Forall_impl; [exact Hc0|]. by intros r [Hr _].
Qed.

Lemma _update_group_vars_shape a gd a' r K :
  _update_group_vars a gd = Some (a', r) → 0 < K →
  Forall (λ k, k < K) a.(g_c) → Forall (λ k, k < K) (rn_c_ gd) →
  Forall (λ i, i < length a.(g_c)) a.(g_d) →
  Forall (λ i, i < length a.(g_c)) (rn_d_ gd) →
  length r.(r_c) = length a.(g_c) ∧ Forall (λ k, k < K) r.(r_c) ∧
  Forall (λ i, i < length r.(r_c)) r.(r_d) ∧ Forall (λ k, k < K) r.(r_z).
Proof.
  intros H HK Hc Hc_ Hd Hd_. apply _update_group_vars_inv in H
    as (cd & ll & cd_ & ll_ & x & t & _ & _ & _ & _ & Hrd & Hrn & [m Hrc] & _ & _ & Hz).
  assert (Forall (λ k, k < K) (0 :: t)) as Ht.
  { rewrite Hrn in Hc_. apply Forall_cons in Hc_ as [_ Ht]. by constructor. }
  assert (length (r_c r) = length (g_c a)) as Hl by by rewrite Hrc, !mask_assign_length.
  assert (Forall (λ k, k < K) (r_c r)) as HcK.
  { rewrite Hrc. apply mask_assign_Forall; [|done]. by apply mask_assign_Forall. }
  split_and!; try done.
  - rewrite Hl, Hrd. by apply mask_assign_Forall.
  - by eapply take_idx_Forall.
Qed.

(** A well-shaped state with well-shaped draws meets the conditions under
    which a sweep completes. *)
Lemma well_shaped_sweep_ready self data (rnd : @SweepDraws Omega) :
  well_shaped self = true → draws_ready self data rnd = true →
  sweep_ready self data rnd = true.
Proof.
  unfold well_shaped, draws_ready, sweep_ready. cbv zeta. rewrite !andb_true_iff.
  intros (((((((((((HK0 & Hlw) & Hocc) & Hn) & Hd) & Hz) & Hlu) & Hzeta) & Hzr) & Hcr)
           & Hcd) & Hne) ((Hb_ & Hnr) & Hdr).
  split_and!; try done.
  rewrite forallb_forall in Hne, Hdr. apply forallb_forall. intros [i r] Hin.
  pose proof (Hdr _ Hin) as Hir. simpl in Hir. rewrite !andb_true_iff in Hir.
  destruct Hir as [[H1 H2] H3]. simpl. rewrite H1, H2, H3.
  apply list_elem_of_In, list_elem_of_lookup in Hin as [t Ht].
  apply list_lookup_imap_Some in Ht as (r' & Ht & ?). simplify_eq.
  rewrite lookup_drop in Ht. apply list_elem_of_lookup_2, list_elem_of_In in Ht.
  by rewrite (Hne _ Ht).
Qed.

(** X19: a sweep keeps the model well shaped.  From a well-shaped state, with
    draws of the right shapes and ranges, the state that [update] returns is
    well shaped again, provided the weight sampler returned one weight per
    outer cluster: no cluster id ever leaves the truncation and no slot id
    the inner truncation. *)
Theorem sweep_keeps_the_model_well_shaped self data rnd self' :
  well_shaped self = true →
  draws_ready self data rnd = true →
  update self data rnd = Some self' →
  length self'.(lw) = length self.(lw) →
  well_shaped self' = true.
Proof.
  unfold well_shaped at 1. unfold draws_ready. cbv zeta. rewrite !andb_true_iff.
  intros (((((((((((HK0 & Hlw) & Hocc) & Hn) & Hld) & Hlz) & Hllu) & Hlzeta) & Hz) & Hc)
           & Hcd) & Hne) ((Hb_ & Hnr) & Hdr) H Hlw'.
  apply Nat.ltb_lt in HK0. apply Nat.leb_le in Hn.
  apply Nat.eqb_eq in Hlw, Hocc, Hld, Hlz, Hllu, Hlzeta, Hb_, Hnr.
  set (K := length (beta self)) in *.
  apply (forallb_Forall _ (Forall (λ k, k < K))) in Hz; [|apply all_lt_Forall].
  apply (forallb_Forall _ (Forall (λ k, k < K))) in Hc; [|apply all_lt_Forall].
  apply (forallb_Forall _ (λ cd, Forall (λ i, i < length cd.1) cd.2)) in Hcd;
    [|intros cd; apply all_lt_Forall].
  apply (forallb_Forall _ (λ r, 0 < length r)) in Hne; [|by intros r ?%Nat.ltb_lt].
  apply (forallb_Forall _
           (λ ic, length (rn_c_ (rn_groups rnd ic.1)) = length ic.2 ∧
                  Forall (λ k, k < K) (rn_c_ (rn_groups rnd ic.1)) ∧
                  Forall (λ i, i < length ic.2) (rn_d_ (rn_groups rnd ic.1)))) in Hdr.
  2:{ intros ic. rewrite !andb_true_iff. intros ((H1 & H2) & H3).
      apply Nat.eqb_eq in H1. split_and!; try done; by apply all_lt_Forall. }
  pose proof (update_fields _ _ _ _ H)
    as (_ & _ & _ & _ & _ & _ & _ & [mb Hbeta] & Hlc' & Hld' & Hlz' & Hllu' & Hlze'
        & Hlo' & _).
  apply update_steps in H
    as (v1 & v2 & idxs & res & c1 & d1 & z1 & lu1 & zeta1 & z2 & eta1 & lw1 & H).
  cbv zeta in H. destruct H as (_ & Hres & _ & Hc1 & Hd1 & Hz1 & Hsnap & _ & Hh).
  apply _update_hpars_frame in Hh as (p1 & q1 & p2 & q2 & p0 & q0 & ->).
  fields in Hbeta. fields in Hlc'. fields in Hld'. fields in Hlz'. fields in Hllu'.
  fields in Hlze'. fields in Hlo'. fields in Hlw'. fields in Hsnap.
  apply mapM_Some_1 in Hres.
  assert (∀ t a' r, res !! t = Some (a', r) →
            length (r_c r) > 0 ∧ Forall (λ k, k < K) (r_c r) ∧
            Forall (λ i, i < length (r_c r)) (r_d r) ∧ Forall (λ k, k < K) (r_z r))
    as Hrows.
  { intros t a' r Hr.
    destruct (Forall2_lookup_r _ _ _ _ _ Hres Hr) as ([t' a] & Hia & Hu).
    rewrite list_lookup_imap in Hia.
    destruct (group_args _ data !! t) as [a0|] eqn:Ha; [|done].
    simpl in Hia. injection Hia as ? ?. subst t' a. simpl in Hu.
    apply group_args_lookup in Ha as (Hca & Hda & _). fields in Hca. fields in Hda.
    rename a0 into a.
    assert (zip (c self) (d self) !! S t = Some (g_c a, g_d a)) as Hzip.
    { apply lookup_zip_with_Some. eauto. }
    assert (imap pair (drop 1 (c self)) !! t = Some (t, g_c a)) as Hi.
    { rewrite list_lookup_imap, lookup_drop. change (1 + t) with (S t). by rewrite Hca. }
    pose proof (Forall_lookup_1 _ _ _ _ Hdr Hi) as (_ & H2 & H3). simpl in H2, H3.
    pose proof (Forall_lookup_1 _ _ _ _ Hcd Hzip) as H4. simpl in H4.
    destruct (_update_group_vars_shape a _ a' r K Hu HK0
                (Forall_lookup_1 _ _ _ _ Hc Hca) H2 H4 H3) as (Hl & H5 & H6 & H7).
    split_and!; try done. rewrite Hl.
    pose proof (Forall_lookup_1 _ _ _ _ Hne Hca). simpl in *. lia. }
  assert (Forall (Forall (λ k, k < K)) z1) as Hz1K.
  { eapply assign_tail_Forall; [exact Hz1|exact Hz|].
    apply Forall_fmap, Forall_lookup. intros t [a' r] Hr. by apply (Hrows t a' r). }
  assert (Forall (Forall (λ k, k < K)) c1) as Hc1K.
  { eapply assign_tail_Forall; [exact Hc1|exact Hc|].
    apply Forall_fmap, Forall_lookup. intros t [a' r] Hr. by apply (Hrows t a' r). }
  assert (Forall (λ r, 0 < length r) c1) as Hne1.
  { eapply assign_tail_Forall; [exact Hc1|exact Hne|].
    apply Forall_fmap, Forall_lookup. intros t [a' r] Hr. simpl.
    destruct (Hrows t a' r Hr) as (? & _). lia. }
  assert (Forall (λ cd, Forall (λ i, i < length cd.1) cd.2) (zip c1 d1)) as Hcd1.
  { apply Forall_lookup. intros g [cr dr] Hg.
    apply lookup_zip_with_Some in Hg as (cr' & dr' & ? & Hcr & Hdr'). simplify_eq/=.
    destruct g as [|g].
    - destruct (lookup_lt_is_Some_2 (c self) 0) as [x Hx]; [lia|].
      destruct (lookup_lt_is_Some_2 (d self) 0) as [y Hy]; [lia|].
      rewrite (assign_tail_head _ _ _ _ Hc1 Hx) in Hcr.
      rewrite (assign_tail_head _ _ _ _ Hd1 Hy) in Hdr'. simplify_eq.
      assert (zip (c self) (d self) !! 0 = Some (cr', dr')) as Hzip.
      { apply lookup_zip_with_Some. eauto. }
      exact (Forall_lookup_1 _ _ _ _ Hcd Hzip).
    - assert (S g < length (c self)) as Hgc.
      { rewrite <- (assign_tail_length _ _ _ Hc1). by eapply lookup_lt_Some. }
      rewrite (assign_tail_lookup _ _ _ (S g) Hc1) in Hcr by lia.
      rewrite (assign_tail_lookup _ _ _ (S g) Hd1) in Hdr' by lia.
      rewrite tail_src_fmap, list_lookup_fmap in Hcr, Hdr'.
      destruct (res !! tail_src res (S g)) as [[a' r]|] eqn:Hr; simplify_eq/=.
      by apply (Hrows _ a' r Hr). }
  pose proof (snap_range _ _ _ _ K Hsnap HK0 Hz1K) as Hz2K.
  unfold well_shaped. fields. fields in Hlw'.
  rewrite !mask_assign_length. fold K.
  rewrite Hlo', Hlw', Hlw, Hocc, Hlc', Hld', Hlz', Hllu', Hlze', Hld, Hlz, Hllu, Hlzeta.
  rewrite !Nat.eqb_refl, (proj2 (Nat.ltb_lt 0 K) HK0), (proj2 (Nat.leb_le 2 _) Hn).
  rewrite (Forall_forallb _ _ _ (Forall_all_lt K) Hz2K).
  rewrite (Forall_forallb _ _ _ (Forall_all_lt K) Hc1K).
  rewrite (Forall_forallb _ (λ cd, Forall (λ i, i < length cd.1) cd.2) (zip c1 d1));
    [|intros cd; apply Forall_all_lt|done].
  rewrite (Forall_forallb _ (λ r, 0 < length r) c1); [done| |done].
  intros r Hr. by apply Nat.ltb_lt.
Qed.

(** ** What a sweep leaves alone *)

(** X21: in every reachable state each combined cluster indexes an effect,
    and a nonzero combined cluster has an effect that the threshold test
    [|b| < thr] rejects (for numbers: of magnitude at least [thr]); no cell
    whose effect is below the threshold shows a nonzero cluster. *)
Theorem nonzero_cluster_is_above_threshold self g f k :
  reachable self → cell self.(z) g f = Some k →
  ∃ b, self.(beta) !! k = Some b ∧
       (k ≠ 0 → (abs b <? self.(thr))%float = false ∧
                (no_nan b → no_nan self.(thr) → (self.(thr) <=? abs b)%float = true)).
Proof.
  intros Hr Hk. destruct (reachable_Inv _ Hr) as (Hcons & _ & _ & _ & Hb0 & _).
  destruct (Hcons g f k Hk) as (j & _ & b & Hb & ->).
  destruct (abs b <? thr self)%float eqn:Ht.
  - exists 0%float. split; [done|]. by intros [].
  - exists b. split; [done|]. intros _. split; [done|]. intros Hnb Hnt.
    rewrite (ltb_negb_leb _ _ (abs_no_nan _ Hnb) Hnt) in Ht.
    by destruct (thr self <=? abs b)%float.
Qed.

(** X22: a sweep never touches the reference group: row 0 of [c], [d] and
    [lu] and entry 0 of [zeta] are, after the sweep, what they were before. *)
Theorem update_leaves_the_reference_group self data rnd self' :
  update self data rnd = Some self' →
  self'.(c) !! 0 = self.(c) !! 0 ∧ self'.(d) !! 0 = self.(d) !! 0 ∧
  self'.(lu) !! 0 = self.(lu) !! 0 ∧ self'.(zeta) !! 0 = self.(zeta) !! 0.
Proof.
  unfold update. intros H. cbv beta zeta in H.
  bind_inv H. apply _update_phi_inv in Hx as [m1 ->].
  bind_inv H. apply _update_mu_inv in Hx as [m2 ->].
  bind_inv H. apply _update_beta_frame in Hx as [m3 ->].
  do 2 bind_inv H. do 5 bind_inv H. do 2 bind_inv H.
  apply _update_hpars_frame in H as (p1 & q1 & p2 & q2 & p0 & q0 & ->).
  fields. fields in Hx0. fields in Hx1. fields in Hx3. fields in Hx4.
  apply mapM_Some_1, Forall2_length in Hx. rewrite length_imap in Hx.
  unfold group_args in Hx. rewrite !length_zip_with, !length_drop in Hx.
  fields in Hx.
  assert (0 < length a) as Hres by (destruct a; [done|simpl; lia]).
  assert (∀ {A} (m rows m' : list A),
            assign_tail m rows = Some m' → 0 < length m → m' !! 0 = m !! 0) as Hhead.
  { intros A m rows m' Hm Hl. destruct (lookup_lt_is_Some_2 m 0 Hl) as [x Hx'].
    rewrite Hx'. by eapply assign_tail_head. }
  split_and!; (eapply Hhead; [eassumption|lia]).
Qed.

(** X9: the global moves never touch the indicators or the occupancy
    statistics: [_update_phi], [_update_mu], [_update_beta] and
    [_update_hpars] return a state with the [c], [d], [z], [occ], [iact],
    [nact], [lw] and [lu] they were given, and with as many effects. *)
Theorem global_moves_keep_the_indicators self data r w1 w2 w0 self' :
  _update_phi self data r = Some self' ∨ _update_mu self data r = Some self' ∨
  _update_beta self data r = Some self' ∨ _update_hpars self w1 w2 w0 = Some self' →
  self'.(c) = self.(c) ∧ self'.(d) = self.(d) ∧ self'.(z) = self.(z) ∧
  self'.(occ) = self.(occ) ∧ self'.(iact) = self.(iact) ∧ self'.(nact) = self.(nact) ∧
  self'.(lw) = self.(lw) ∧ self'.(lu) = self.(lu) ∧
  length self'.(beta) = length self.(beta).
Proof.
  intros [H|[H|[H|H]]].
  - apply _update_phi_frame in H as [v ->]. fields. done.
  - apply _update_mu_frame in H as [v ->]. fields. done.
  - apply _update_beta_frame in H as [v ->]. fields.
    rewrite !mask_assign_length. done.
  - apply _update_hpars_frame in H as (p1 & q1 & p2 & q2 & p0 & q0 & ->). fields. done.
Qed.

End Sweeps.

(** ** The further properties on the example model *)

Lemma state1_reached_after : reached_after 1 Example.state1.
Proof.
  apply (after_update 0 Example.state0 Example.data Example.sweep_draws).
  - apply (after_init Example.raw (3, 2) (0, 1)%float None None Example.thr03
             Example.init_draws).
    vm_compute. reflexivity.
  - vm_compute. reflexivity.
Qed.

Lemma iter_counts_sweeps_witness : Example.state1.(iter) = 1.
Proof. apply (iter_counts_sweeps 1 Example.state1). exact state1_reached_after. Defined.

Lemma update_keeps_dimensions_witness :
  Example.state1.(thr) = Example.state0.(thr) ∧
  Example.state1.(ngroups) = Example.state0.(ngroups) ∧
  Example.state1.(nfeatures) = Example.state0.(nfeatures) ∧
  Example.state1.(nsamples) = Example.state0.(nsamples) ∧
  length Example.state1.(log_phi) = length Example.state0.(log_phi) ∧
  length Example.state1.(log_mu) = length Example.state0.(log_mu) ∧
  length Example.state1.(beta) = length Example.state0.(beta) ∧
  length Example.state1.(occ) = length Example.state0.(occ) ∧
  length Example.state1.(iact) = length Example.state0.(occ) ∧
  length Example.state1.(c) = length Example.state0.(c) ∧
  length Example.state1.(d) = length Example.state0.(d) ∧
  length Example.state1.(z) = length Example.state0.(z) ∧
  length Example.state1.(lu) = length Example.state0.(lu) ∧
  length Example.state1.(zeta) = length Example.state0.(zeta).
Proof.
  apply (update_keeps_dimensions Example.state0 Example.data Example.sweep_draws
           Example.state1).
  vm_compute. reflexivity.
Defined.

Lemma slot_zero_points_to_null_witness :
  Forall (λ row : list nat, row !! 0 = Some 0) Example.state1.(c).
Proof. apply (slot_zero_points_to_null Example.state1). exact state1_reachable. Defined.


Lemma init_rejects_degenerate_configuration_witness :
  __init__ Example.raw (0, 2) (0, 1)%float None None Example.thr03 Example.init_draws
    = None.
Proof.
  apply (init_rejects_degenerate_configuration Example.raw (0, 2) (0, 1)%float
           None None Example.thr03 Example.init_draws).
  left. reflexivity.
Defined.

Lemma snap_twice_is_snap_once_witness :
  snap Example.thr03 Cases.effects Cases.clusters = Some [[0; 1]; [0; 1]] ∧
  snap Example.thr03 Cases.effects [[0; 1]; [0; 1]] = Some [[0; 1]; [0; 1]].
Proof.
  split; [vm_compute; reflexivity|].
  apply (snap_twice_is_snap_once Example.thr03 Cases.effects Cases.clusters).
  vm_compute. reflexivity.
Defined.

Lemma nonpositive_threshold_never_snaps_witness :
  (0 <=? 0)%float = true ∧
  snap 0%float Cases.effects Cases.clusters = Some Cases.clusters ∧
  Cases.clusters = Cases.clusters.
Proof.
  split; [reflexivity|]. split; [vm_compute; reflexivity|].
  apply (nonpositive_threshold_never_snaps 0%float Cases.effects Cases.clusters
           Cases.clusters).
  - reflexivity.
  - vm_compute. reflexivity.
Defined.

Lemma occupancy_caches_are_current_witness :
  Example.state1.(occ) = occupancy Example.state1.(z) (length Example.state1.(occ)) ∧
  Example.state1.(iact) = active Example.state1.(occ) ∧
  Example.state1.(nact) = count_true Example.state1.(iact) ∧
  sum_list Example.state1.(occ) = length (concat (drop 1 Example.state1.(z))).
Proof.
  apply (@occupancy_caches_are_current float Example.env Example.state1).
  exact state1_reachable.
Defined.

Lemma global_moves_keep_the_indicators_witness :
  Example.state_phi.(c) = Example.state0.(c) ∧
  Example.state_phi.(d) = Example.state0.(d) ∧
  Example.state_phi.(z) = Example.state0.(z) ∧
  Example.state_phi.(occ) = Example.state0.(occ) ∧
  Example.state_phi.(iact) = Example.state0.(iact) ∧
  Example.state_phi.(nact) = Example.state0.(nact) ∧
  Example.state_phi.(lw) = Example.state0.(lw) ∧
  Example.state_phi.(lu) = Example.state0.(lu) ∧
  length Example.state_phi.(beta) = length Example.state0.(beta).
Proof.
  apply (global_moves_keep_the_indicators Example.state0 Example.data
           (rn_phi Example.sweep_draws) 1%float 1%float 1%float Example.state_phi).
  left. vm_compute. reflexivity.
Defined.

Lemma repeat_gives_each_sample_its_group_witness :
  length (np_repeat (PerColumn [1; 2]) [5; 7]) = sum_list [1; 2] ∧
  ∀ j g, group_of_sample [1; 2] j = Some g →
         np_repeat (PerColumn [1; 2]) [5; 7] !! j = [5; 7] !! g.
Proof. apply (repeat_gives_each_sample_its_group [1; 2] [5; 7]). reflexivity. Defined.

Lemma loglik_uses_the_effect_of_the_cell_witness :
  cell Cases.loglik0 0 1 =
    Some (nbinomln 2 (1 / np_exp 0)
            ((1 / np_exp 0) / ((1 / np_exp 0) + 1 * np_exp (1 + 1)))%float).
Proof.
  apply (loglik_uses_the_effect_of_the_cell Example.state0 Example.data
           Example.state0.(log_phi) Example.state0.(log_mu) Example.state0.(beta)
           Cases.loglik0 0 1 1 1 1%float [1; 2]%float 2%float 1%float 0%float 1%float).
  - repeat constructor.
  - reflexivity.
  - reflexivity.
  - vm_compute. reflexivity.
  - reflexivity.
  - reflexivity.
  - reflexivity.
  - reflexivity.
  - reflexivity.
  - reflexivity.
  - reflexivity.
  - reflexivity.
  - reflexivity.
Defined.

Lemma active_cluster_moves_by_metropolis_witness :
  ∃ loglik loglik_,
    model_loglik Example.state0 Example.data Example.state0.(log_phi)
      Example.state0.(log_mu) Example.state0.(beta) = Some loglik ∧
    model_loglik Example.state0 Example.data Example.state0.(log_phi)
      Example.state0.(log_mu) (0%float :: (rn_beta_ Example.sweep_draws).1)
      = Some loglik_ ∧
    ∀ (k : nat) b p l l_ u,
      Example.state0.(iact) !! k = Some true →
      Example.state0.(beta) !! k = Some b →
      (0%float :: (rn_beta_ Example.sweep_draws).1) !! k = Some p →
      bincount_w (concat (map (np_repeat (PerColumn Example.data.(nreplicas)))
                            (transpose Example.state0.(nfeatures) Example.state0.(z))))
                 (concat loglik) (length Example.state0.(lw)) !! k = Some l →
      bincount_w (concat (map (np_repeat (PerColumn Example.data.(nreplicas)))
                            (transpose Example.state0.(nfeatures) Example.state0.(z))))
                 (concat loglik_) (length Example.state0.(lw)) !! k = Some l_ →
      (rn_beta_ Example.sweep_draws).2 !! k = Some u →
      Example.state_beta.(beta) !! k =
        Some (if (l <? l_)%float || (u <? np_exp (l_ - l))%float then p else b).
Proof.
  apply (active_cluster_moves_by_metropolis Example.state0 Example.data
           (rn_beta_ Example.sweep_draws) Example.state_beta).
  vm_compute. reflexivity.
Defined.


Lemma group_update_frees_empty_slots_witness :
  ∃ a' r,
    _update_group_vars Example.call_args Example.call_draws = Some (a', r) ∧
    (∀ (l : nat) x p,
       Example.call_args.(g_c) !! l = Some x →
       <[0:=0]> (rn_c_ Example.call_draws) !! l = Some p →
       l < length Example.call_args.(g_lu) → l ∉ r.(r_d) →
       r.(r_c) !! l = Some p) ∧
    <[0:=0]> (rn_c_ Example.call_draws) !! 0 = Some 0 ∧
    (∀ (f : nat) k, r.(r_z) !! f = Some k →
       ∃ i, r.(r_d) !! f = Some i ∧ r.(r_c) !! i = Some k).
Proof.
  eexists _, _. split; [vm_compute; reflexivity|].
  eapply (group_update_frees_empty_slots Example.call_args Example.call_draws).
  vm_compute. reflexivity.
Defined.

Lemma group_update_resamples_concentration_witness :
  ∃ a' r,
    _update_group_vars Example.call_args Example.call_draws = Some (a', r) ∧
    r.(r_zeta) =
      sample_eta_west Example.call_args.(g_zeta)
        (count_true (active (bincount r.(r_d) (length Example.call_args.(g_lu)))))
        (length Example.call_args.(g_d)) (w_zeta Example.call_draws) ∧
    r.(r_lu) =
      (sample_stick (bincount r.(r_d) (length Example.call_args.(g_lu))) r.(r_zeta)
         (w_lu Example.call_draws)).1 ∧
    length r.(r_d) = length Example.call_args.(g_d).
Proof.
  eexists _, _. split; [vm_compute; reflexivity|].
  eapply (group_update_resamples_concentration Example.call_args Example.call_draws).
  vm_compute. reflexivity.
Defined.

Lemma nan_likelihood_keeps_the_current_value_witness :
  ∃ loglik loglik_,
    @model_loglik float Example.env_nan Example.state0 Example.data
      Example.state0.(log_phi) Example.state0.(log_mu) Example.state0.(beta)
      = Some loglik ∧
    @model_loglik float Example.env_nan Example.state0 Example.data
      (rn_phi Example.sweep_draws).1 Example.state0.(log_mu) Example.state0.(beta)
      = Some loglik_ ∧
    ∀ (i : nat) cur new l l_ u,
      Example.state0.(log_phi) !! i = Some cur →
      (rn_phi Example.sweep_draws).1 !! i = Some new →
      loglik !! i = Some l → loglik_ !! i = Some l_ →
      (rn_phi Example.sweep_draws).2 !! i = Some u →
      is_nan (@np_sum float Example.env_nan l) = true
      ∨ is_nan (@np_sum float Example.env_nan l_) = true →
      Example.state0.(log_phi) !! i = Some cur.
Proof.
  apply (@nan_likelihood_keeps_the_current_value float Example.env_nan
           Example.state0 Example.data (rn_phi Example.sweep_draws) Example.state0).
  - vm_compute. reflexivity.
  - vm_compute. reflexivity.
Defined.

Lemma init_builds_a_well_shaped_model_witness :
  ∃ self,
    __init__ Example.raw (3, 2) (0, 1)%float None None Example.thr03 Example.init_draws
      = Some self ∧
    well_shaped self = true ∧
    length self.(beta) = 3 ∧ length self.(c) = Example.raw.(groups) ∧
    Forall (λ r, length r = 2) self.(c).
Proof.
  apply (init_builds_a_well_shaped_model Example.raw (3, 2) (0, 1)%float None None
           Example.thr03 Example.init_draws).
  vm_compute. reflexivity.
Defined.

Lemma sweep_keeps_the_model_well_shaped_witness :
  well_shaped Example.state1 = true.
Proof.
  apply (sweep_keeps_the_model_well_shaped Example.state0 Example.data
           Example.sweep_draws Example.state1).
  - vm_compute. reflexivity.
  - vm_compute. reflexivity.
  - vm_compute. reflexivity.
  - reflexivity.
Defined.

Lemma active_count_bounds_witness :
  Example.state1.(nact) ≤ length Example.state1.(occ) ∧
  (concat (drop 1 Example.state1.(z)) ≠ [] → 1 ≤ Example.state1.(nact)).
Proof.
  apply (@active_count_bounds float Example.env Example.state1).
  exact state1_reachable.
Defined.

Lemma nonzero_cluster_is_above_threshold_witness :
  ∃ b, Example.state1.(beta) !! 2 = Some b ∧
       (2 ≠ 0 → (abs b <? Example.state1.(thr))%float = false ∧
                (no_nan b → no_nan Example.state1.(thr) →
                 (Example.state1.(thr) <=? abs b)%float = true)).
Proof.
  apply (@nonzero_cluster_is_above_threshold float Example.env Example.state1 1 1 2).
  - exact state1_reachable.
  - reflexivity.
Defined.

Lemma update_leaves_the_reference_group_witness :
  Example.state1.(c) !! 0 = Example.state0.(c) !! 0 ∧
  Example.state1.(d) !! 0 = Example.state0.(d) !! 0 ∧
  Example.state1.(lu) !! 0 = Example.state0.(lu) !! 0 ∧
  Example.state1.(zeta) !! 0 = Example.state0.(zeta) !! 0.
Proof.
  apply (update_leaves_the_reference_group Example.state0 Example.data
           Example.sweep_draws Example.state1).
  vm_compute. reflexivity.
Defined.
